(** * NodeModal: the node editing modal of the JSON graph editor

    A shallow embedding of [src/features/modals/NodeModal/index.tsx]:
    the helpers [normalizeNodeData], [jsonPathToString],
    [setValueAtPath], [coerceValue], and the [handleSave] /
    [handleCancel] handlers of the [NodeModal] component, together with
    the fragment of the JavaScript runtime they run on (property reads
    and writes on JSON data and on the built-in objects a read can lead
    to, [JSON.stringify], template-literal string conversion). *)

From Stdlib Require Import String Ascii List Bool NArith ZArith Arith Lia.
From Stdlib Require Import DecimalString DecimalN.
Import ListNotations.
Local Open Scope string_scope.

Set Implicit Arguments.

(** Induction principles for the containers the value types nest in. *)
Scheme All for list.
Scheme All for option.
Scheme All for prod.

(** ** The numeric part of the runtime

    JavaScript numbers are IEEE doubles.  The component never does
    arithmetic on them: it converts strings to numbers ([Number(value)]),
    tests for NaN, and prints them.  These built-ins are taken as an
    interface. *)

Class JSNumber := {
  num : Type;
  (** [Number(s)] for a string [s]. *)
  StringToNumber : string -> num;
  (** [String(n)], also used by template literals and [JSON.stringify]. *)
  NumberToString : num -> string;
  (** [Number.isNaN]. *)
  isNaN : num -> bool;
  (** [Number.isFinite]: decides whether [JSON.stringify] prints [null]. *)
  isFinite : num -> bool;
  (** The number of an array or string length. *)
  num_of_N : N -> num;
  (** [Some k] when the number is an integer [0 <= k < 2^32], the only
      values an array [length] accepts. *)
  toArrayLength : num -> option N
}.

(** ** Completions: a statement returns normally or throws *)

Inductive error := TypeError | RangeError | SyntaxError | HostError.

Inductive completion (A : Type) :=
| Normal (a : A)
| Throw (e : error).
Arguments Normal {A} a.
Arguments Throw {A} e.

Definition bind {A B} (c : completion A) (k : A -> completion B) : completion B :=
  match c with
  | Normal a => k a
  | Throw e => Throw e
  end.

Notation "x <- c ;; k" := (bind c (fun x => k))
  (at level 61, c at next level, right associativity).

(** ** Strings and property keys *)

Definition decimal (n : N) : string := NilZero.string_of_uint (N.to_uint n).

(** An array index is the canonical decimal string of an integer below
    [2^32 - 1]; such keys are the elements of an array and come first, in
    ascending order, among the own keys of an object. *)
Definition array_index (k : string) : option N :=
  match NilZero.uint_of_string k with
  | Some d =>
      let n := N.of_uint d in
      if (String.eqb (decimal n) k && (n <? 4294967295)%N)%bool
      then Some n else None
  | None => None
  end.

Definition slength (s : string) : N := N.of_nat (String.length s).

Fixpoint join (sep : string) (l : list string) : string :=
  match l with
  | [] => ""
  | [x] => x
  | x :: rest => x ++ sep ++ join sep rest
  end.

Definition dquote : string := String (ascii_of_N 34) "".
Definition backslash : string := String (ascii_of_N 92) "".
Definition newline : string := String (ascii_of_N 10) "".

Definition hex_digit (n : N) : ascii :=
  ascii_of_N (if (n <? 10)%N then 48 + n else 87 + n).

(** One code unit of a quoted string, as [QuoteJSONString] prints it. *)
Definition quote_char (c : ascii) : string :=
  let n := N_of_ascii c in
  if (n =? 34)%N then backslash ++ dquote else
  if (n =? 92)%N then backslash ++ backslash else
  if (n =? 8)%N then backslash ++ "b" else
  if (n =? 12)%N then backslash ++ "f" else
  if (n =? 10)%N then backslash ++ "n" else
  if (n =? 13)%N then backslash ++ "r" else
  if (n =? 9)%N then backslash ++ "t" else
  if (n <? 32)%N
  then backslash ++ "u00" ++ String (hex_digit (n / 16)) (String (hex_digit (n mod 16)) "")
  else String c "".

Fixpoint quote_chars (s : string) : string :=
  match s with
  | EmptyString => ""
  | String c rest => quote_char c ++ quote_chars rest
  end.

Definition QuoteJSONString (s : string) : string :=
  dquote ++ quote_chars s ++ dquote.

Section Values.
Context {NUM : JSNumber}.

(** ** Values

    [prim] are the scalars a row or a coerced field can hold; [jsvalue] is
    JSON data as it lives in memory.  [undefined] is the absence of a
    value: [None] in an [option]. *)

Inductive prim :=
| PNull
| PBool (b : bool)
| PNum (n : num)
| PStr (s : string).

(** An object records whether it still inherits from [Object.prototype]
    (it does unless [__proto__] was assigned [null]) and its own
    properties in the order [Object.keys] and [JSON.stringify] see them.
    An array element [None] is a hole. *)
Inductive jsvalue :=
| VPrim (p : prim)
| VArr (elems : list (option jsvalue))
| VObj (inherits : bool) (props : list (string * option jsvalue)).

(** What [JSON.parse] builds from, in document order. *)
Inductive jsondoc :=
| JNull
| JBool (b : bool)
| JNumber (n : num)
| JString (s : string)
| JArray (items : list jsondoc)
| JObject (members : list (string * jsondoc)).

(** A template literal and [String(v)] on a scalar. *)
Definition ToString (v : option prim) : string :=
  match v with
  | None => "undefined"
  | Some PNull => "null"
  | Some (PBool true) => "true"
  | Some (PBool false) => "false"
  | Some (PNum n) => NumberToString n
  | Some (PStr s) => s
  end.

(** *** Own properties *)

Section Props.
Variable A : Type.

Fixpoint lookup (k : string) (props : list (string * A)) : option A :=
  match props with
  | [] => None
  | (k', a) :: rest => if String.eqb k k' then Some a else lookup k rest
  end.

Definition has_own (k : string) (props : list (string * A)) : bool :=
  match lookup k props with Some _ => true | None => false end.

Fixpoint overwrite (k : string) (a : A) (props : list (string * A)) : list (string * A) :=
  match props with
  | [] => []
  | (k', a') :: rest =>
      if String.eqb k k' then (k', a) :: rest else (k', a') :: overwrite k a rest
  end.

(** [key_before k k']: a new key [k] is listed before the existing [k']. *)
Definition key_before (k k' : string) : bool :=
  match array_index k, array_index k' with
  | Some i, Some i' => (i <? i')%N
  | Some _, None => true
  | None, _ => false
  end.

Fixpoint place (k : string) (a : A) (props : list (string * A)) : list (string * A) :=
  match props with
  | [] => [(k, a)]
  | (k', a') :: rest =>
      if key_before k k' then (k, a) :: (k', a') :: rest
      else (k', a') :: place k a rest
  end.

(** Defining or updating an own data property. *)
Definition define_own (k : string) (a : A) (props : list (string * A)) : list (string * A) :=
  if has_own k props then overwrite k a props else place k a props.

End Props.

(** [o[k] = v] on an ordinary object, [v] a scalar or [undefined].  An
    assignment to [__proto__] that finds no own property of that name
    reaches the accessor inherited from [Object.prototype]: it creates
    no property, and it drops the prototype when [v] is [null]. *)
Definition object_set (k : string) (v : option prim)
    (o : bool * list (string * option jsvalue)) : bool * list (string * option jsvalue) :=
  let (inherits, props) := o in
  if (String.eqb k "__proto__" && inherits && negb (has_own k props))%bool
  then match v with
       | Some PNull => (false, props)
       | _ => (inherits, props)
       end
  else (inherits, define_own k (option_map VPrim v) props).

(** *** Writing a property: [v[k] = x] in strict mode, [x] a scalar *)

(** The number an array takes as its new [length], if it is one. *)
Definition new_length (x : option prim) : option N :=
  match x with
  | None => None
  | Some PNull => Some 0%N
  | Some (PBool b) => Some (if b then 1%N else 0%N)
  | Some (PNum n) => toArrayLength n
  | Some (PStr s) => toArrayLength (StringToNumber s)
  end.

Definition resize (A : Type) (n : nat) (l : list (option A)) : list (option A) :=
  firstn n l ++ repeat None (n - length l).

Fixpoint set_nth (A : Type) (i : nat) (a : A) (l : list A) : list A :=
  match i, l with
  | _, [] => []
  | O, _ :: rest => a :: rest
  | S i', b :: rest => b :: set_nth i' a rest
  end.

(** On an array: an index writes the element, growing the array with
    holes when needed; [length] resizes or throws; any other key becomes
    a named property, which no serialisation sees and which is not kept
    here: an array is described by its elements, as [JSON.parse] builds
    it. *)
Definition array_set (k : string) (x : option prim)
    (elems : list (option jsvalue)) : completion (list (option jsvalue)) :=
  match array_index k with
  | Some i =>
      let i := N.to_nat i in
      Normal (set_nth i (option_map VPrim x) (resize (Nat.max (S i) (length elems)) elems))
  | None =>
      if String.eqb k "length"
      then match new_length x with
           | Some n => Normal (resize (N.to_nat n) elems)
           | None => Throw RangeError
           end
      else Normal elems
  end.

(** On [null] and [undefined] the write throws.  On another scalar it
    throws too (strict mode), except for [__proto__], whose inherited
    setter returns without effect. *)
Definition set_prop (v : option jsvalue) (k : string) (x : option prim) : completion jsvalue :=
  match v with
  | None | Some (VPrim PNull) => Throw TypeError
  | Some (VPrim p) =>
      if String.eqb k "__proto__" then Normal (VPrim p) else Throw TypeError
  | Some (VArr elems) =>
      elems' <- array_set k x elems ;; Normal (VArr elems')
  | Some (VObj inherits props) =>
      let (inherits', props') := object_set k x (inherits, props) in
      Normal (VObj inherits' props')
  end.

(** ** [JSON.stringify] *)

(** [SerializeJSONProperty]: [indent] is the current indentation, [gap]
    the unit added per level.  A property whose value is [undefined] is
    left out; a hole prints as [null]. *)
Definition bracket (opn cls gap indent : string) (partial : list string) : string :=
  match partial with
  | [] => opn ++ cls
  | _ =>
      if String.eqb gap ""
      then opn ++ join "," partial ++ cls
      else opn ++ newline ++ (indent ++ gap)
             ++ join ("," ++ newline ++ (indent ++ gap)) partial
             ++ newline ++ indent ++ cls
  end.

Fixpoint serialize (gap indent : string) (v : jsvalue) : string :=
  match v with
  | VPrim PNull => "null"
  | VPrim (PBool true) => "true"
  | VPrim (PBool false) => "false"
  | VPrim (PNum n) => if isFinite n then NumberToString n else "null"
  | VPrim (PStr s) => QuoteJSONString s
  | VArr elems =>
      let fix items (l : list (option jsvalue)) : list string :=
        match l with
        | [] => []
        | Some x :: rest => serialize gap (indent ++ gap) x :: items rest
        | None :: rest => "null" :: items rest
        end in
      bracket "[" "]" gap indent (items elems)
  | VObj _ props =>
      let fix members (l : list (string * option jsvalue)) : list string :=
        match l with
        | [] => []
        | (k, Some x) :: rest =>
            (QuoteJSONString k ++ ":" ++ (if String.eqb gap "" then "" else " ")
               ++ serialize gap (indent ++ gap) x) :: members rest
        | (_, None) :: rest => members rest
        end in
      bracket "{" "}" gap indent (members props)
  end.

Definition spaces (n : nat) : string := string_of_list_ascii (repeat " "%char n).

(** [JSON.stringify(v, null, space)] on a defined value. *)
Definition JSON_stringify (v : jsvalue) (space : nat) : string :=
  serialize (spaces (Nat.min space 10)) "" v.

(** ** What [JSON.parse] allocates

    Members are defined in document order, so a repeated key keeps its
    first position and its last value, and index-like keys move to the
    front. *)
Fixpoint reify (d : jsondoc) : jsvalue :=
  match d with
  | JNull => VPrim PNull
  | JBool b => VPrim (PBool b)
  | JNumber n => VPrim (PNum n)
  | JString s => VPrim (PStr s)
  | JArray items => VArr (map (fun x => Some (reify x)) items)
  | JObject members =>
      let fix build (l : list (string * jsondoc)) (acc : list (string * option jsvalue)) :=
        match l with
        | [] => acc
        | (k, x) :: rest => build rest (define_own k (Some (reify x)) acc)
        end in
      VObj true (build members [])
  end.

(** ** Graph nodes *)

(** Modelled from the spec: the declarations of [NodeData] and [NodeRow]
    (types/graph) are not among the sources.  A path is "an ordered
    sequence of object keys and array indices"; a node carries "its
    flattened field rows and its path from the document root".  The
    fields are the ones the component reads. *)
Inductive segment :=
| Key (s : string)
| Index (i : N).

Definition JSONPath := list segment.

Record NodeRow := {
  key : option string;
  value : option prim;
  type : string
}.

Record NodeData := {
  id : string;
  text : list NodeRow;
  path : option JSONPath
}.

Record Graph := { nodes : list NodeData }.

(** [!!row.key] *)
Definition truthy (k : option string) : bool :=
  match k with
  | Some s => negb (String.eqb s "")
  | None => false
  end.

(** [row.type !== "array" && row.type !== "object"] *)
Definition scalar_type (t : string) : bool :=
  negb (String.eqb t "array") && negb (String.eqb t "object").

(** ** The helpers of the component *)

Definition normalizeNodeData (nodeRows : option (list NodeRow)) : string :=
  match nodeRows with
  | None | Some [] => "{}"
  | Some ((row0 :: _) as rows) =>
      if Nat.eqb (length rows) 1 && negb (truthy (key row0))
      then ToString (value row0)
      else
        let obj :=
          fold_left
            (fun obj row =>
               if scalar_type (type row) then
                 match key row with
                 | Some k => if truthy (key row) then object_set k (value row) obj else obj
                 | None => obj
                 end
               else obj)
            rows (true, []) in
        JSON_stringify (VObj (fst obj) (snd obj)) 2
  end.

Definition jsonPathToString (path : option JSONPath) : string :=
  match path with
  | None | Some [] => "$"
  | Some path =>
      let segments :=
        map (fun seg => match seg with
                        | Index i => decimal i
                        | Key s => dquote ++ s ++ dquote
                        end) path in
      "$[" ++ join "][" segments ++ "]"
  end.

(** [cur[seg]]: the segment is converted to a property key. *)
Definition property_key (seg : segment) : string :=
  match seg with
  | Key s => s
  | Index i => decimal i
  end.

Definition coerceValue (value : string) (type : option string) : prim :=
  if match type with Some t => String.eqb t "number" | None => false end
  then let n := StringToNumber value in
       if isNaN n then PStr value else PNum n
  else
    if (match type with Some t => String.eqb t "boolean" | None => false end)
       && String.eqb value "true" then PBool true
    else
    if (match type with Some t => String.eqb t "boolean" | None => false end)
       && String.eqb value "false" then PBool false
    else
    if String.eqb value "null" then PNull
    else PStr value.

End Values.

(** ** The realm: what a property read finds outside the document

    [cur[seg]] is a property read.  On an object or an array of the
    document it finds the own properties first; every other key is
    looked up along the prototype chain, in the built-in prototypes.  On
    a scalar it goes through a wrapper object: the characters and the
    length of a string, then the prototype of the wrapper.  What is found
    there is a scalar, or an object of the realm itself: a prototype, a
    constructor, a method.  A further read then starts from that object.

    The built-in objects are those of the engine and are taken as an
    interface, as they stand when a handler starts.  Reading a member
    runs at most a built-in accessor ([__proto__]; [caller] and
    [arguments] of a function, which throw): it changes nothing, and
    what it returns for an object or an array does not depend on the
    properties held.  The methods that the component calls on its own
    arrays and objects are the built-in ones when a handler starts; the
    one way the component has of replacing one of them, an assignment of
    [handleSave] that lands on [Array.prototype], is followed in
    [assignField]. *)

Inductive member {NUM : JSNumber} (B : Type) :=
| Scalar (v : option prim)
| Object (b : B).
Arguments Scalar {NUM B} v.
Arguments Object {NUM B} b.

Class Realm `{JSNumber} := {
  (** The objects of the realm. *)
  builtin : Type;
  (** [typeof b === "function"]; otherwise [typeof b === "object"]. *)
  callable : builtin -> bool;
  (** [b] is [Array.prototype], where arrays find their methods. *)
  array_prototype : builtin -> bool;
  (** [o[k]] for an object [o] that inherits from [Object.prototype] and
      has no own property [k]. *)
  object_member : string -> completion (member builtin);
  (** [a[k]] for an array [a], [k] neither an element nor [length]. *)
  array_member : string -> completion (member builtin);
  (** [p[k]] for a string, a number or a boolean [p]. *)
  scalar_member : prim -> string -> completion (member builtin);
  (** [b[k]] for an object of the realm. *)
  builtin_get : builtin -> string -> completion (member builtin);
  (** [b[k] = x] in strict mode, for a scalar [x], after the assignments
      [done] were made: it returns, or throws (a read-only member, a
      setter that throws, a [length] that is not one). *)
  builtin_set : list (builtin * string * prim) -> builtin -> string -> prim
                -> completion unit
}.

Section Reading.
Context {NUM : JSNumber} {REALM : Realm}.

(** What a variable of the component can hold while a path is walked:
    JSON data ([undefined] included), or an object of the realm. *)
Inductive jsany :=
| Data (v : option jsvalue)
| Builtin (b : builtin).

Definition of_member (m : member builtin) : jsany :=
  match m with
  | Scalar v => Data (option_map VPrim v)
  | Object b => Builtin b
  end.

(** [v == null] *)
Definition is_nullish (v : jsany) : bool :=
  match v with
  | Data None | Data (Some (VPrim PNull)) => true
  | _ => false
  end.

(** [v && typeof v === "object"]: an object or an array of the document,
    or an object of the realm that is not a function. *)
Definition is_object (v : jsany) : bool :=
  match v with
  | Data (Some (VArr _)) | Data (Some (VObj _ _)) => true
  | Data _ => false
  | Builtin b => negb (callable b)
  end.

(** The own property [k] of a value of the document, when it has one:
    a property of an object; an element of an array that is not a hole,
    or its [length]. *)
Definition own_prop (v : jsvalue) (k : string) : option (option jsvalue) :=
  match v with
  | VPrim _ => None
  | VArr elems =>
      match array_index k with
      | Some i =>
          match nth_error elems (N.to_nat i) with
          | Some (Some e) => Some (Some e)
          | _ => None
          end
      | None =>
          if String.eqb k "length"
          then Some (Some (VPrim (PNum (num_of_N (N.of_nat (length elems))))))
          else None
      end
  | VObj _ props => lookup k props
  end.

(** *** Reading a property: [v[k]] *)
Definition get_prop (v : jsany) (k : string) : completion jsany :=
  match v with
  | Data None | Data (Some (VPrim PNull)) => Throw TypeError
  | Data (Some (VPrim p)) => m <- scalar_member p k ;; Normal (of_member m)
  | Data (Some (VArr elems)) =>
      match own_prop (VArr elems) k with
      | Some e => Normal (Data e)
      | None => m <- array_member k ;; Normal (of_member m)
      end
  | Data (Some (VObj inherits props)) =>
      match own_prop (VObj inherits props) k with
      | Some e => Normal (Data e)
      | None =>
          if inherits then m <- object_member k ;; Normal (of_member m)
          else Normal (Data None)
      end
  | Builtin b => m <- builtin_get b k ;; Normal (of_member m)
  end.

Fixpoint walk (cur : jsany) (path : JSONPath) : completion jsany :=
  match path with
  | [] => Normal cur
  | seg :: rest =>
      if is_nullish cur then Normal (Data None)
      else next <- get_prop cur (property_key seg) ;; walk next rest
  end.

Definition setValueAtPath (root : jsany) (path : option JSONPath) : completion jsany :=
  match path with
  | None | Some [] => Normal root
  | Some path => walk root path
  end.

End Reading.

(** ** The collaborators of the component *)

(** Modelled from the spec: the graph parser ([lib/jsonParser], "a
    parser that converts JSON text into a graph") is not among the
    sources, and [JSON.parse] is a built-in.  Each is taken as it is
    called: a function of the text that returns a result or throws. *)
Class Host `{Realm} := {
  JSON_parse : string -> completion jsondoc;
  parser : string -> completion Graph
}.

(** The argument of [useFile.setContents]. *)
Record FileContents := {
  contents : string;
  hasChanges : bool;
  skipUpdate : bool
}.

Inductive message :=
| Warn (text : string)
| Error (text : string) (err : error).

Section Component.
Context {NUM : JSNumber} {REALM : Realm} {HOST : Host}.

(** Modelled from the spec: the stores are not among the sources; the
    document store is the "global holder of the canonical JSON text",
    the graph store holds "the currently selected node".  Each store
    field holds what was last set.  With them come the local state of
    the component ([editMode], [formValues]) and the console.
    [formValues] lists the own properties of the form object in
    [Object.keys] order. *)
Record State := {
  json : string;
  file : FileContents;
  selectedNode : option NodeData;
  editMode : bool;
  formValues : list (string * string);
  console : list message
}.

Definition setJson (s : string) (st : State) : State :=
  {| json := s; file := file st; selectedNode := selectedNode st;
     editMode := editMode st; formValues := formValues st; console := console st |}.

Definition setContents (c : FileContents) (st : State) : State :=
  {| json := json st; file := c; selectedNode := selectedNode st;
     editMode := editMode st; formValues := formValues st; console := console st |}.

Definition setSelectedNode (n : NodeData) (st : State) : State :=
  {| json := json st; file := file st; selectedNode := Some n;
     editMode := editMode st; formValues := formValues st; console := console st |}.

Definition setEditMode (b : bool) (st : State) : State :=
  {| json := json st; file := file st; selectedNode := selectedNode st;
     editMode := b; formValues := formValues st; console := console st |}.

Definition setFormValues (f : list (string * string)) (st : State) : State :=
  {| json := json st; file := file st; selectedNode := selectedNode st;
     editMode := editMode st; formValues := f; console := console st |}.

Definition log (m : message) (st : State) : State :=
  {| json := json st; file := file st; selectedNode := selectedNode st;
     editMode := editMode st; formValues := formValues st;
     console := console st ++ [m] |}.

(** [typeof v] *)
Definition typeof (v : jsany) : string :=
  match v with
  | Data None => "undefined"
  | Data (Some (VPrim (PBool _))) => "boolean"
  | Data (Some (VPrim (PNum _))) => "number"
  | Data (Some (VPrim (PStr _))) => "string"
  | Data (Some (VPrim PNull)) | Data (Some (VArr _)) | Data (Some (VObj _ _)) => "object"
  | Builtin b => if callable b then "function" else "object"
  end.

(** *** Assigning through [parent]

    [JSON.parse] returns a fresh tree.  A member found in the realm is a
    scalar or an object of the realm, never a part of that tree: when
    [setValueAtPath] ends on an object or an array of the document, it
    got there through own properties, the object is the one found by
    reading the same keys from [parsed], and no other path leads to it.
    Assigning to a property of [parent] is then assigning below [parsed]
    at that place. *)

Definition replace_child (v : jsvalue) (k : string) (child : jsvalue) : jsvalue :=
  match v with
  | VPrim p => VPrim p
  | VArr elems =>
      match array_index k with
      | Some i => VArr (set_nth (N.to_nat i) (Some child) elems)
      | None => VArr elems
      end
  | VObj inherits props => VObj inherits (overwrite k (Some child) props)
  end.

Fixpoint update_at (keys : list string) (f : jsvalue -> completion jsvalue)
    (root : jsvalue) : completion jsvalue :=
  match keys with
  | [] => f root
  | k :: rest =>
      match own_prop root k with
      | Some (Some c) => c' <- update_at rest f c ;; Normal (replace_child root k c')
      | _ => Normal root
      end
  end.

Definition node_path (nodeData : option NodeData) : option JSONPath :=
  match nodeData with
  | Some n => path n
  | None => None
  end.

(** [JSON.stringify(path)], [undefined] for a missing path. *)
Definition JSON_stringify_path (p : option JSONPath) : option string :=
  match p with
  | None => None
  | Some segs =>
      Some (bracket "[" "]" "" ""
              (map (fun seg => match seg with
                               | Index i => decimal i
                               | Key s => QuoteJSONString s
                               end) segs))
  end.

(** [a === b] on the results of [JSON.stringify]. *)
Definition strict_equal (a b : option string) : bool :=
  match a, b with
  | Some x, Some y => String.eqb x y
  | None, None => true
  | _, _ => false
  end.

(** *** Assigning onto the realm

    When the walk ends on an object of the realm that is not a function,
    the fields are assigned to that object and the document stays as it
    is.  The assignments made so far are kept in a list.  One of them
    matters to the handler itself: once [find] of [Array.prototype]
    holds a scalar, [rows.find(...)] and [graph.nodes.find(...)] throw a
    TypeError. *)
Definition assignment : Type := builtin * string * prim.

Definition find_replaced (done : list assignment) : bool :=
  existsb (fun a => array_prototype (fst (fst a)) && String.eqb (snd (fst a)) "find") done.

(** The body of the [forEach] in [handleSave], for one key of the form:
    it works on the document and on the assignments made to the realm. *)
Definition assignField (nodeData : option NodeData) (parent : jsany)
    (cur : jsvalue * list assignment) (field : string * string)
  : completion (jsvalue * list assignment) :=
  let (parsed, done) := cur in
  let (k, input) := field in
  row <- match nodeData with
         | Some n =>
             if find_replaced done then Throw TypeError
             else Normal (find (fun r => match key r with
                                         | Some rk => String.eqb rk k
                                         | None => false
                                         end) (text n))
         | None => Normal None
         end ;;
  let newVal := coerceValue input (option_map type row) in
  if is_object parent
  then match parent with
       | Builtin b =>
           _ <- builtin_set done b k newVal ;;
           Normal (parsed, (done ++ [(b, k, newVal)])%list)
       | Data _ =>
           parsed' <- update_at
                        (match node_path nodeData with
                         | Some segs => map property_key segs
                         | None => []
                         end)
                        (fun p => set_prop (Some p) k (Some newVal)) parsed ;;
           Normal (parsed', done)
       end
  else parsed' <- set_prop (Some parsed) k (Some newVal) ;; Normal (parsed', done).

Fixpoint forEach (A B : Type) (body : B -> A -> completion B) (l : list A) (b : B)
  : completion B :=
  match l with
  | [] => Normal b
  | a :: rest => b' <- body b a ;; forEach body rest b'
  end.

Definition saveError : string := "Failed to save node edits".
Definition rootWarning : string := "Could not find parent for path, applying to root".

Definition handleSave (st : State) : State :=
  let nodeData := selectedNode st in
  let raw := json st in
  match (if String.eqb raw "" then Normal (VObj true [])
         else d <- JSON_parse raw ;; Normal (reify d)) with
  | Throw err => log (Error saveError err) st
  | Normal parsed =>
  match setValueAtPath (Data (Some parsed)) (node_path nodeData) with
  | Throw err => log (Error saveError err) st
  | Normal parent =>
      let st :=
        if is_nullish parent || negb (String.eqb (typeof parent) "object")
        then log (Warn rootWarning) st else st in
      match forEach (assignField nodeData parent) (formValues st) (parsed, []) with
      | Throw err => log (Error saveError err) st
      | Normal (parsed, done) =>
          let jsonStr := JSON_stringify parsed 2 in
          let st := setJson jsonStr st in
          let st := setContents {| contents := jsonStr; hasChanges := false;
                                   skipUpdate := true |} st in
          let st :=
            match parser jsonStr with
            | Normal graph =>
                if find_replaced done then st
                else
                match find (fun n => strict_equal (JSON_stringify_path (path n))
                                       (JSON_stringify_path (node_path nodeData)))
                           (nodes graph) with
                | Some matched => setSelectedNode matched st
                | None => st
                end
            | Throw _ => st
            end in
          setEditMode false st
      end
  end
  end.

(** The form as the effect on [nodeData] fills it, and as [handleCancel]
    restores it. *)
Definition initialFormValues (nodeData : option NodeData) : list (string * string) :=
  match nodeData with
  | None => []
  | Some n =>
      fold_left
        (fun initial row =>
           match key row with
           | Some k =>
               if truthy (key row) && scalar_type (type row)
               then if String.eqb k "__proto__" then initial
                    else define_own k (match value row with
                                       | None | Some PNull => ""
                                       | v => ToString v
                                       end) initial
               else initial
           | None => initial
           end)
        (text n) []
  end.

Definition handleCancel (st : State) : State :=
  setEditMode false (setFormValues (initialFormValues (selectedNode st)) st).

End Component.

(** ** A runtime to run the component on

    Numbers restricted to NaN and the integers that a double holds
    exactly and prints in plain digits: a text made of an optional minus
    sign and decimal digits is read as such an integer, any other text
    as NaN.  [JSON.parse] and the graph parser are given by the finite
    table of the texts a run meets; a text that is not in the table is
    rejected. *)
Module Sample.

Inductive number :=
| NaN
| Int (z : Z).

Definition readNumber (s : string) : number :=
  if String.eqb s "" then Int 0
  else match NilZero.int_of_string s with
       | Some d => Int (Z.of_int d)
       | None => NaN
       end.

Definition printNumber (n : number) : string :=
  match n with
  | NaN => "NaN"
  | Int z => NilZero.string_of_int (Z.to_int z)
  end.

#[export] Instance numbers : JSNumber := {|
  num := number;
  StringToNumber := readNumber;
  NumberToString := printNumber;
  isNaN := fun n => match n with NaN => true | Int _ => false end;
  isFinite := fun n => match n with NaN => false | Int _ => true end;
  num_of_N := fun n => Int (Z.of_N n);
  toArrayLength := fun n =>
    match n with
    | Int z => if ((0 <=? z) && (z <? 4294967296))%Z then Some (Z.to_N z) else None
    | NaN => None
    end
|}.

Definition int (z : Z) : prim := PNum (Int z : @num numbers).

(** *** A small realm

    The built-in prototypes of objects, functions, arrays, strings,
    numbers and booleans, their constructors, and some of their methods:
    the members named in the tables below, where an engine has more.
    Texts are held in UTF-8; a string is indexed, and its length
    counted, in UTF-16 code units. *)

Inductive intrinsic :=
| ObjectPrototype
| FunctionPrototype
| ArrayPrototype
| StringPrototype
| NumberPrototype
| BooleanPrototype
| Constructor (name : string)
| Method (holder name : string) (arity : N).

(** The methods of the prototypes and of the constructors, with the
    number of their parameters. *)
Definition methods (b : intrinsic) : list (string * N) :=
  match b with
  | ObjectPrototype =>
      [("hasOwnProperty", 1); ("isPrototypeOf", 1); ("propertyIsEnumerable", 1);
       ("toLocaleString", 0); ("toString", 0); ("valueOf", 0)]%N
  | FunctionPrototype => [("apply", 2); ("bind", 1); ("call", 1); ("toString", 0)]%N
  | ArrayPrototype =>
      [("concat", 1); ("every", 1); ("filter", 1); ("find", 1); ("findIndex", 1);
       ("forEach", 1); ("includes", 1); ("indexOf", 1); ("join", 1); ("keys", 0);
       ("map", 1); ("pop", 0); ("push", 1); ("reduce", 1); ("reverse", 0);
       ("shift", 0); ("slice", 2); ("some", 1); ("sort", 1); ("splice", 2);
       ("toString", 0); ("unshift", 1)]%N
  | StringPrototype =>
      [("charAt", 1); ("charCodeAt", 1); ("endsWith", 1); ("includes", 1);
       ("indexOf", 1); ("padStart", 1); ("repeat", 1); ("replace", 2); ("slice", 2);
       ("split", 2); ("startsWith", 1); ("toLowerCase", 0); ("toString", 0);
       ("toUpperCase", 0); ("trim", 0); ("valueOf", 0)]%N
  | NumberPrototype =>
      [("toExponential", 1); ("toFixed", 1); ("toLocaleString", 0);
       ("toPrecision", 1); ("toString", 1); ("valueOf", 0)]%N
  | BooleanPrototype => [("toString", 0); ("valueOf", 0)]%N
  | Constructor c =>
      if String.eqb c "Object"
      then [("assign", 2); ("create", 2); ("entries", 1); ("freeze", 1);
            ("getPrototypeOf", 1); ("keys", 1); ("values", 1)]%N
      else if String.eqb c "Array" then [("from", 1); ("isArray", 1); ("of", 0)]%N
      else if String.eqb c "String" then [("fromCharCode", 1); ("raw", 1)]%N
      else if String.eqb c "Number"
      then [("isFinite", 1); ("isInteger", 1); ("isNaN", 1); ("parseFloat", 1);
            ("parseInt", 2)]%N
      else []
  | Method _ _ _ => []
  end.

(** How a built-in object is named as the holder of its methods. *)
Definition holder_name (b : intrinsic) : string :=
  match b with
  | ObjectPrototype => "Object.prototype"
  | FunctionPrototype => "Function.prototype"
  | ArrayPrototype => "Array.prototype"
  | StringPrototype => "String.prototype"
  | NumberPrototype => "Number.prototype"
  | BooleanPrototype => "Boolean.prototype"
  | Constructor c => c
  | Method h n _ => h ++ "." ++ n
  end.

(** [C.prototype], [P.constructor] *)
Definition prototype_named (c : string) : option intrinsic :=
  if String.eqb c "Object" then Some ObjectPrototype
  else if String.eqb c "Function" then Some FunctionPrototype
  else if String.eqb c "Array" then Some ArrayPrototype
  else if String.eqb c "String" then Some StringPrototype
  else if String.eqb c "Number" then Some NumberPrototype
  else if String.eqb c "Boolean" then Some BooleanPrototype
  else None.

Definition constructor_of (b : intrinsic) : option intrinsic :=
  match b with
  | ObjectPrototype => Some (Constructor "Object")
  | FunctionPrototype => Some (Constructor "Function")
  | ArrayPrototype => Some (Constructor "Array")
  | StringPrototype => Some (Constructor "String")
  | NumberPrototype => Some (Constructor "Number")
  | BooleanPrototype => Some (Constructor "Boolean")
  | Constructor _ | Method _ _ _ => None
  end.

(** [Object.getPrototypeOf(b)], [None] for [null]. *)
Definition prototype_of (b : intrinsic) : option intrinsic :=
  match b with
  | ObjectPrototype => None
  | FunctionPrototype | ArrayPrototype | StringPrototype
  | NumberPrototype | BooleanPrototype => Some ObjectPrototype
  | Constructor _ | Method _ _ _ => Some FunctionPrototype
  end.

Definition is_function (b : intrinsic) : bool :=
  match b with
  | FunctionPrototype | Constructor _ | Method _ _ _ => true
  | _ => false
  end.

Definition number_of (n : N) : option prim := Some (PNum (Int (Z.of_N n) : @num numbers)).

(** The own data properties of a built-in object. *)
Definition own_data (b : intrinsic) (k : string) : option (member intrinsic) :=
  match lookup k (methods b) with
  | Some arity => Some (Object (Method (holder_name b) k arity))
  | None =>
      if String.eqb k "constructor"
      then option_map Object (constructor_of b)
      else
      match b with
      | FunctionPrototype =>
          if String.eqb k "length" then Some (Scalar (number_of 0))
          else if String.eqb k "name" then Some (Scalar (Some (PStr "")))
          else None
      | ArrayPrototype | StringPrototype =>
          if String.eqb k "length" then Some (Scalar (number_of 0)) else None
      | Constructor c =>
          if String.eqb k "prototype" then option_map Object (prototype_named c)
          else if String.eqb k "length" then Some (Scalar (number_of 1))
          else if String.eqb k "name" then Some (Scalar (Some (PStr c)))
          else None
      | Method _ n arity =>
          if String.eqb k "length" then Some (Scalar (number_of arity))
          else if String.eqb k "name" then Some (Scalar (Some (PStr n)))
          else None
      | _ => None
      end
  end.

(** [[Get]] from [b] upwards.  [proto] is the prototype of the value the
    read started from, which the accessor [__proto__] of
    [Object.prototype] returns; [caller] and [arguments] of
    [Function.prototype] are accessors that throw. *)
Fixpoint get_from (depth : nat) (b : intrinsic) (proto : member intrinsic) (k : string)
  : completion (member intrinsic) :=
  match own_data b k with
  | Some m => Normal m
  | None =>
      let inherited :=
        match depth, prototype_of b with
        | S d, Some p => get_from d p proto k
        | _, _ => Normal (Scalar None)
        end in
      match b with
      | ObjectPrototype =>
          if String.eqb k "__proto__" then Normal proto else inherited
      | FunctionPrototype =>
          if (String.eqb k "caller" || String.eqb k "arguments")%bool
          then Throw TypeError else inherited
      | _ => inherited
      end
  end.

Definition get (b : intrinsic) (proto : member intrinsic) (k : string) :=
  get_from 3 b proto k.

(** The UTF-16 code units of a text, each as the text it is alone.  A
    character of four bytes gives two surrogates, written the way UTF-8
    writes a code point of three bytes. *)
Definition continuation (n : N) : ascii := ascii_of_N (128 + n mod 64).

Definition surrogate (u : N) : string :=
  String (ascii_of_N 237) (String (continuation (u / 64)) (String (continuation u) "")).

Definition surrogates (a b c d : ascii) : list string :=
  let point := ((N_of_ascii a mod 8) * 262144 + (N_of_ascii b mod 64) * 4096
                + (N_of_ascii c mod 64) * 64 + N_of_ascii d mod 64)%N in
  let u := (point - 65536)%N in
  [surrogate (55296 + u / 1024); surrogate (56320 + u mod 1024)].

Fixpoint code_units (s : string) : list string :=
  match s with
  | EmptyString => []
  | String a rest =>
      if (N_of_ascii a <? 192)%N then String a "" :: code_units rest
      else
      match rest with
      | EmptyString => [String a ""]
      | String b rest1 =>
          if (N_of_ascii a <? 224)%N
          then String a (String b "") :: code_units rest1
          else
          match rest1 with
          | EmptyString => [String a (String b "")]
          | String c rest2 =>
              if (N_of_ascii a <? 240)%N
              then String a (String b (String c "")) :: code_units rest2
              else
              match rest2 with
              | EmptyString => [String a (String b (String c ""))]
              | String d rest3 => (surrogates a b c d ++ code_units rest3)%list
              end
          end
      end
  end.

Definition scalar_get (p : prim) (k : string) : completion (member intrinsic) :=
  match p with
  | PNull => Throw TypeError
  | PBool _ => get BooleanPrototype (Object BooleanPrototype) k
  | PNum _ => get NumberPrototype (Object NumberPrototype) k
  | PStr s =>
      let units := code_units s in
      match array_index k with
      | Some i =>
          match nth_error units (N.to_nat i) with
          | Some u => Normal (Scalar (Some (PStr u)))
          | None => get StringPrototype (Object StringPrototype) k
          end
      | None =>
          if String.eqb k "length"
          then Normal (Scalar (number_of (N.of_nat (length units))))
          else get StringPrototype (Object StringPrototype) k
      end
  end.

(** [b[k] = x] in strict mode.  The members of the prototypes can be
    assigned, but for the [length] of [String.prototype], which is
    read-only, and the [length] of [Array.prototype], which takes array
    lengths only; the setter of [__proto__] ignores a scalar and accepts
    [null].  On a function, [name] and [length] are read-only, as is
    the [prototype] of a constructor, and the setters of [caller] and
    [arguments] throw. *)
Definition set (b : intrinsic) (k : string) (x : prim) : completion unit :=
  match b with
  | ObjectPrototype | NumberPrototype | BooleanPrototype => Normal tt
  | StringPrototype => if String.eqb k "length" then Throw TypeError else Normal tt
  | ArrayPrototype =>
      if String.eqb k "length"
      then match new_length (Some x) with
           | Some _ => Normal tt
           | None => Throw RangeError
           end
      else Normal tt
  | FunctionPrototype | Method _ _ _ =>
      if (String.eqb k "name" || String.eqb k "length"
          || String.eqb k "caller" || String.eqb k "arguments")%bool
      then Throw TypeError else Normal tt
  | Constructor _ =>
      if (String.eqb k "name" || String.eqb k "length" || String.eqb k "prototype"
          || String.eqb k "caller" || String.eqb k "arguments")%bool
      then Throw TypeError else Normal tt
  end.

#[export] Instance realm : Realm := {|
  builtin := intrinsic;
  callable := is_function;
  array_prototype := fun b => match b with ArrayPrototype => true | _ => false end;
  object_member := get ObjectPrototype (Object ObjectPrototype);
  array_member := get ArrayPrototype (Object ArrayPrototype);
  scalar_member := scalar_get;
  builtin_get := fun b =>
    get b (match prototype_of b with
           | Some p => Object p
           | None => Scalar (Some PNull)
           end);
  builtin_set := fun _ => set
|}.


Definition table (A : Type) (e : error) (entries : list (string * A)) (s : string)
  : completion A :=
  match lookup s entries with
  | Some a => Normal a
  | None => Throw e
  end.

Definition host (texts : list (string * jsondoc)) (graphs : list (string * Graph)) : Host := {|
  JSON_parse := table SyntaxError texts;
  parser := table HostError graphs
|}.

End Sample.


(** ** The rest of the component: the effect, the inputs, the buttons *)

Section Events.
Context {NUM : JSNumber} {REALM : Realm} {HOST : Host}.

(** The effect that runs when [nodeData] changes: it fills the form from
    the node, and clears it and leaves edit mode when there is no node. *)
Definition populateFormValues (st : State) : State :=
  match selectedNode st with
  | None => setEditMode false (setFormValues [] st)
  | Some n => setFormValues (initialFormValues (Some n)) st
  end.

(** [{ ...prev }]: a new object that receives the own properties of
    [prev] one by one. *)
Definition spread (A : Type) (prev : list (string * A)) : list (string * A) :=
  fold_left (fun acc p => define_own (fst p) (snd p) acc) prev [].

(** The [onChange] of the input of [row]: the form is replaced by a copy
    in which the row's key holds the text of the input.  A computed key
    of an object literal defines an own property, whatever its name. *)
Definition onChange (row : NodeRow) (input : string) (st : State) : State :=
  setFormValues
    (define_own (match key row with Some k => k | None => "" end) input
       (spread (formValues st)))
    st.

(** The Edit button. *)
Definition handleEdit (st : State) : State := setEditMode true st.

(** The rows that get an input in edit mode. *)
Definition editableRows (nodeData : option NodeData) : list NodeRow :=
  match nodeData with
  | Some n => filter (fun row => truthy (key row) && scalar_type (type row)) (text n)
  | None => []
  end.

(** The path the modal shows. *)
Definition shownPath (nodeData : option NodeData) : string :=
  jsonPathToString (node_path nodeData).

End Events.
(** * Vocabulary of the statements *)

Fixpoint concat_all (l : list string) : string :=
  match l with
  | [] => ""
  | x :: rest => x ++ concat_all rest
  end.

(** *** Reading serialised paths back *)

Definition is_digit (c : ascii) : bool :=
  ((48 <=? N_of_ascii c) && (N_of_ascii c <=? 57))%N.

Fixpoint all_digits (s : string) : bool :=
  match s with
  | EmptyString => true
  | String c rest => is_digit c && all_digits rest
  end.

(** The first code unit of [s] exists and is not a digit. *)
Definition stops_number (s : string) : Prop :=
  match s with
  | String c _ => is_digit c = false
  | EmptyString => False
  end.

Definition hex_value (c : ascii) : N :=
  let n := N_of_ascii c in if (n <? 58)%N then (n - 48)%N else (n - 87)%N.

(** Reads one code unit of a quoted string back: the inverse of
    [quote_char] on whatever follows. *)
Definition unquote_char (s : string) : option (ascii * string) :=
  match s with
  | String c rest =>
      if (N_of_ascii c =? 92)%N then
        match rest with
        | String e rest' =>
            let n := N_of_ascii e in
            if ((n =? 34) || (n =? 92))%N then Some (e, rest') else
            if (n =? 98)%N then Some (ascii_of_N 8, rest') else
            if (n =? 102)%N then Some (ascii_of_N 12, rest') else
            if (n =? 110)%N then Some (ascii_of_N 10, rest') else
            if (n =? 114)%N then Some (ascii_of_N 13, rest') else
            if (n =? 116)%N then Some (ascii_of_N 9, rest') else
            match rest' with
            | String _ (String _ (String h1 (String h2 rest''))) =>
                Some (ascii_of_N (16 * hex_value h1 + hex_value h2), rest'')
            | _ => None
            end
        | EmptyString => None
        end
      else Some (c, rest)
  | EmptyString => None
  end.

(** A path segment as [JSON.stringify] prints it. *)
Definition printed (seg : segment) : string :=
  match seg with
  | Index i => decimal i
  | Key s => QuoteJSONString s
  end.

(** What follows a printed segment inside a serialised path. *)
Definition printed_rest (segs : JSONPath) : string :=
  concat_all (map (fun seg => "," ++ printed seg) segs) ++ "]".

Section Vocabulary.
Context {NUM : JSNumber} {REALM : Realm} {HOST : Host}.

(** The row type handed to [coerceValue] is the string [t]. *)
Definition is_type (type : option string) (t : string) : Prop := type = Some t.

(** A path segment as [jsonPathToString] shows it. *)
Definition shown (seg : segment) : string :=
  match seg with
  | Index i => decimal i
  | Key s => dquote ++ s ++ dquote
  end.

(** One step of a walk: [cur[seg]], and [undefined] when there is
    nothing to index. *)
Definition indexed (cur : jsany) (seg : segment) : completion jsany :=
  if is_nullish cur then Normal (Data None)
  else get_prop cur (property_key seg).

(** The value located at a path: the root indexed by each segment in
    order, unless one of the reads throws. *)
Definition located (root : jsany) (path : JSONPath) : completion jsany :=
  fold_left (fun found seg => cur <- found ;; indexed cur seg) path (Normal root).

(** Inside the document: the value that an element of an array or a
    property of an object holds, and the value found by following such
    elements and properties from a root. *)
Definition child (v : jsvalue) (k : string) : option jsvalue :=
  match v with
  | VPrim _ => None
  | VArr elems =>
      match array_index k with
      | Some i =>
          match nth_error elems (N.to_nat i) with
          | Some (Some e) => Some e
          | _ => None
          end
      | None => None
      end
  | VObj _ props =>
      match lookup k props with
      | Some (Some e) => Some e
      | _ => None
      end
  end.

Fixpoint descend (root : jsvalue) (keys : list string) : option jsvalue :=
  match keys with
  | [] => Some root
  | k :: rest =>
      match child root k with
      | Some c => descend c rest
      | None => None
      end
  end.

(** An object or an array of the document, as opposed to a scalar,
    [undefined] and the objects of the realm. *)
Definition in_document (v : jsany) : bool :=
  match v with
  | Data (Some (VArr _)) | Data (Some (VObj _ _)) => true
  | _ => false
  end.

(** The rows [normalizeNodeData] keeps: a truthy key and a type that is
    neither "array" nor "object"; and the entry such a row stands for. *)
Definition is_field (row : NodeRow) : bool :=
  truthy (key row) && scalar_type (type row).

Definition entry (row : NodeRow) : string * option jsvalue :=
  (match key row with Some k => k | None => "" end, option_map VPrim (value row)).

Definition scalar_entries (rows : list NodeRow) : list (string * option jsvalue) :=
  map entry (filter is_field rows).

(** A key that an object lists in insertion order: not an array index,
    and not the inherited accessor [__proto__]. *)
Definition plain_key (k : string) : Prop :=
  array_index k = None /\ k <> "__proto__".

(** *** Saving *)

(** The document [handleSave] starts from: [{}] for an empty text,
    otherwise what [JSON.parse] returns. *)
Definition parsedDocument (st : State) : completion jsvalue :=
  if String.eqb (json st) "" then Normal (VObj true [])
  else d <- JSON_parse (json st) ;; Normal (reify d).

(** The segments of the selected node's path, none when it is missing. *)
Definition targetPath (nodeData : option NodeData) : JSONPath :=
  match node_path nodeData with
  | Some segs => segs
  | None => []
  end.

(** What walking the selected node's path over a document yields. *)
Definition editTarget (st : State) (parsed : jsvalue) : completion jsany :=
  located (Data (Some parsed)) (targetPath (selectedNode st)).

(** The document as it stands when it is serialised, with the
    assignments made to the realm: every field of the form assigned, or
    the error that interrupted the walk or the assignments. *)
Definition editedDocument (st : State) : completion (jsvalue * list assignment) :=
  parsed <- parsedDocument st ;;
  target <- editTarget st parsed ;;
  forEach (assignField (selectedNode st) target) (formValues st) (parsed, []).

(** The state once the path has been walked: with the warning when the
    walk ended, and not on an object. *)
Definition warned (st : State) : State :=
  match parsedDocument st with
  | Normal parsed =>
      match editTarget st parsed with
      | Normal target => if is_object target then st else log (Warn rootWarning) st
      | Throw _ => st
      end
  | Throw _ => st
  end.

(** The type of the row a form key belongs to, if there is such a row. *)
Definition fieldType (nodeData : option NodeData) (k : string) : option string :=
  option_map type
    match nodeData with
    | Some n => find (fun r => match key r with
                               | Some rk => String.eqb rk k
                               | None => false
                               end) (text n)
    | None => None
    end.

(** The value a form field is saved as. *)
Definition fieldValue (nodeData : option NodeData) (field : string * string) : prim :=
  coerceValue (snd field) (fieldType nodeData (fst field)).

(** Assigning one form field to a property of [target]. *)
Definition assignTo (nodeData : option NodeData) (target : jsvalue)
    (field : string * string) : completion jsvalue :=
  set_prop (Some target) (fst field) (Some (fieldValue nodeData field)).

(** The fields assigned one by one to the object at the node's path. *)
Definition assignInside (nodeData : option NodeData) (parsed : jsvalue)
    (field : string * string) : completion jsvalue :=
  update_at (map property_key (targetPath nodeData))
    (fun p => assignTo nodeData p field) parsed.

(** The assignments made to an object of the realm when the form is
    saved onto it. *)
Definition assignments (nodeData : option NodeData) (b : builtin)
    (fields : list (string * string)) : list assignment :=
  map (fun field => (b, fst field, fieldValue nodeData field)) fields.

(** The node of the re-parsed graph that [handleSave] selects: the first
    one whose serialised path is the serialised path of the edited node,
    none when the parser or the search throws. *)
Definition rematched (st : State) (done : list assignment) (text : string)
  : option NodeData :=
  match parser text with
  | Normal graph =>
      if find_replaced done then None
      else find (fun n => strict_equal (JSON_stringify_path (path n))
                            (JSON_stringify_path (node_path (selectedNode st))))
                (nodes graph)
  | Throw _ => None
  end.

(** The state a save that was not interrupted ends in. *)
Definition saved (st : State) (doc : jsvalue) (done : list assignment) : State :=
  let text := JSON_stringify doc 2 in
  {| json := text;
     file := {| contents := text; hasChanges := false; skipUpdate := true |};
     selectedNode := match rematched st done text with
                     | Some matched => Some matched
                     | None => selectedNode st
                     end;
     editMode := false;
     formValues := formValues st;
     console := console (warned st) |}.

End Vocabulary.


(** * Vocabulary of the further statements *)

(** The own properties of an object are in order: no key twice, and no
    key listed after one it should come before. *)
Inductive ordered (A : Type) : list (string * A) -> Prop :=
| ordered_nil : ordered []
| ordered_cons (k : string) (a : A) (rest : list (string * A)) :
    ~ In k (map fst rest) ->
    (forall k', In k' (map fst rest) -> key_before k' k = false) ->
    ordered rest ->
    ordered ((k, a) :: rest).

(** No double quote occurs in [s]. *)
Fixpoint quote_free (s : string) : bool :=
  match s with
  | EmptyString => true
  | String c rest => negb (N_of_ascii c =? 34)%N && quote_free rest
  end.

Definition quote_free_segment (seg : segment) : bool :=
  match seg with
  | Key s => quote_free s
  | Index _ => true
  end.

(** The bracketed group a segment adds to the shown path. *)
Definition group (seg : segment) : string := "[" ++ shown seg ++ "]".

Section Vocabulary2.
Context {NUM : JSNumber} {REALM : Realm} {HOST : Host}.

(** The text the form holds for a row value: [String(value)], and the
    empty text for [null] and [undefined]. *)
Definition fieldText (v : option prim) : string :=
  match v with
  | None | Some PNull => ""
  | v => ToString v
  end.

(** The row has key [k]. *)
Definition keyed (k : string) (row : NodeRow) : bool :=
  match key row with
  | Some rk => String.eqb rk k
  | None => false
  end.

(** The node is a single row without a key: the case in which
    [normalizeNodeData] prints the value alone. *)
Definition scalar_node (rows : list NodeRow) : bool :=
  match rows with
  | [row] => negb (truthy (key row))
  | _ => false
  end.

(** The last of the kept rows that has key [k]. *)
Definition last_field (rows : list NodeRow) (k : string) : option NodeRow :=
  find (keyed k) (rev (filter is_field rows)).

(** One step of the loop of [normalizeNodeData], and one step of the
    loop that fills the form. *)
Definition collect (obj : bool * list (string * option jsvalue)) (row : NodeRow) :=
  if is_field row then object_set (fst (entry row)) (value row) obj else obj.

Definition fill (initial : list (string * string)) (row : NodeRow) :=
  if is_field row
  then if String.eqb (fst (entry row)) "__proto__" then initial
       else define_own (fst (entry row)) (fieldText (value row)) initial
  else initial.


(** What can happen to the component: its node changes (the effect
    runs), the user types in the input of a row, or clicks a button.
    Every event is handled on the realm as it stands. *)
Inductive event :=
| NodeChanged
| Typed (row : NodeRow) (input : string)
| EditClicked
| SaveClicked
| CancelClicked.

Definition handle (st : State) (e : event) : State :=
  match e with
  | NodeChanged => populateFormValues st
  | Typed row input => onChange row input st
  | EditClicked => handleEdit st
  | SaveClicked => handleSave st
  | CancelClicked => handleCancel st
  end.

Definition run (events : list event) (st : State) : State :=
  fold_left handle events st.

(** The event is the user typing in an input. *)
Definition is_typing (e : event) : bool :=
  match e with
  | Typed _ _ => true
  | _ => false
  end.

End Vocabulary2.
(** * Sample nodes, documents and states *)

Module Cases.
Import Sample.

Definition row (k : option string) (v : option prim) (t : string) : NodeRow :=
  {| key := k; value := v; type := t |}.

(** The rows of an object whose keys look like array indices. *)
Definition indexRows : list NodeRow :=
  [row (Some "2") (Some (PStr "b")) "string";
   row (Some "1") (Some (PStr "a")) "string"].

(** The rows of a customer: two scalar fields and a nested array. *)
Definition customerRows : list NodeRow :=
  [row (Some "name") (Some (PStr "Ada")) "string";
   row (Some "orders") None "array";
   row (Some "age") (Some (int 36)) "number"].

(** The single row of a scalar node. *)
Definition scalarRow : NodeRow := row None (Some (PStr "hi")) "string".

Definition customerNode : NodeData :=
  {| id := "2"; text := customerRows; path := Some [Key "customer"] |}.

Definition customerDoc : jsondoc :=
  JObject [("customer",
            JObject [("name", JString "Ada"); ("orders", JArray []);
                     ("age", JNumber (Int 36))])].

Definition customerText : string := JSON_stringify (reify customerDoc) 2.

Definition customerForm : list (string * string) :=
  [("name", "Grace"); ("age", "37")].

(** The document and the graph after the customer was edited. *)
Definition editedDoc : jsondoc :=
  JObject [("customer",
            JObject [("name", JString "Grace"); ("orders", JArray []);
                     ("age", JNumber (Int 37))])].

Definition editedText : string := JSON_stringify (reify editedDoc) 2.

Definition editedNode : NodeData :=
  {| id := "2";
     text := [row (Some "name") (Some (PStr "Grace")) "string";
              row (Some "orders") None "array";
              row (Some "age") (Some (int 37)) "number"];
     path := Some [Key "customer"] |}.

Definition rootNode : NodeData :=
  {| id := "1"; text := [row (Some "customer") None "object"]; path := Some [] |}.

Definition ordersNode : NodeData :=
  {| id := "3"; text := []; path := Some [Key "customer"; Key "orders"] |}.

Definition editedGraph : Graph := {| nodes := [rootNode; editedNode; ordersNode] |}.

(** A runtime that knows these texts. *)
Definition runtime : Host :=
  host [(customerText, customerDoc); ("null", JNull)] [(editedText, editedGraph)].

(** The same runtime with a graph parser that rejects every text. *)
Definition runtimeWithoutGraph : Host :=
  host [(customerText, customerDoc); ("null", JNull)] [].

(** The same runtime with a graph parser that returns a graph without
    the customer's node. *)
Definition runtimeOtherGraph : Host :=
  host [(customerText, customerDoc); ("null", JNull)]
       [(editedText, {| nodes := [rootNode; ordersNode] |})].

Definition editing (text : string) (node : option NodeData)
    (form : list (string * string)) : State :=
  {| json := text;
     file := {| contents := text; hasChanges := true; skipUpdate := false |};
     selectedNode := node;
     editMode := true;
     formValues := form;
     console := [] |}.

(** The customer is being edited. *)
Definition editingCustomer : State := editing customerText (Some customerNode) customerForm.

(** The text in the store is not JSON. *)
Definition editingBrokenText : State := editing "{" (Some customerNode) customerForm.

(** The store holds no text at all. *)
Definition editingEmptyText : State := editing "" None [].

(** The document is [null] while a node with fields is selected. *)
Definition editingNullRoot : State :=
  editing "null"
    (Some {| id := "1"; text := customerRows; path := Some [] |}) customerForm.

Definition editingNullBelow : State := editing "null" (Some customerNode) customerForm.

(** The selected node's path is not in the document. *)
Definition supplierNode : NodeData :=
  {| id := "2"; text := customerRows; path := Some [Key "supplier"] |}.

Definition editingSupplier : State := editing customerText (Some supplierNode) customerForm.

End Cases.


(** * More sample nodes and states *)

Module MoreCases.
Import Sample Cases.

(** Two rows with the same key. *)
Definition repeatedRows : list NodeRow :=
  [row (Some "a") (Some (int 1)) "number";
   row (Some "a") (Some (int 2)) "number"].

(** A document with a shop beside the customer. *)
Definition shopDoc : jsondoc :=
  JObject [("customer",
            JObject [("name", JString "Ada"); ("orders", JArray []);
                     ("age", JNumber (Int 36))]);
           ("shop", JObject [("name", JString "Hill")])].

Definition shopText : string := JSON_stringify (reify shopDoc) 2.

(** A document whose only field is [null], and its node. *)
Definition noteDoc : jsondoc := JObject [("note", JNull)].

Definition noteText : string := JSON_stringify (reify noteDoc) 2.

Definition noteNode : NodeData :=
  {| id := "1"; text := [row (Some "note") (Some PNull) "null"]; path := Some [] |}.

(** The node of a document that is a single scalar. *)
Definition scalarNode : NodeData :=
  {| id := "1"; text := [row None (Some PNull) "null"]; path := Some [] |}.

Definition runtime : Host :=
  host [(customerText, customerDoc); (shopText, shopDoc); (noteText, noteDoc);
        ("null", JNull)] [].

(** The customer's node was just selected: the form is as the effect
    fills it. *)
Definition customerOpened : State :=
  editing customerText (Some customerNode) (initialFormValues (Some customerNode)).


Definition noteOpened : State :=
  editing noteText (Some noteNode) (initialFormValues (Some noteNode)).

Definition nullOpened : State := editing "null" (Some scalarNode) [].

(** The component as it is created: no node, an empty form, not editing. *)
Definition created : State :=
  {| json := customerText;
     file := {| contents := customerText; hasChanges := false; skipUpdate := false |};
     selectedNode := None;
     editMode := false;
     formValues := [];
     console := [] |}.

Definition nameRow : NodeRow := row (Some "name") (Some (PStr "Ada")) "string".

(** A node that stayed selected while the document changed: its path
    names no property of the document any more, but the member
    [__proto__] that every object inherits. *)
Definition staleNode : NodeData :=
  {| id := "2"; text := customerRows; path := Some [Key "__proto__"] |}.

Definition editingStale : State := editing customerText (Some staleNode) customerForm.

(** A path that runs into an accessor of the realm that throws. *)
Definition callerNode : NodeData :=
  {| id := "2"; text := customerRows; path := Some [Key "constructor"; Key "caller"] |}.

Definition editingCaller : State := editing customerText (Some callerNode) [].

(** The document is an empty array now, and the stale node has a field
    named as the method [find]. *)
Definition findNode : NodeData :=
  {| id := "2"; text := [row (Some "find") (Some (PStr "x")) "string"];
     path := Some [Key "__proto__"] |}.

Definition listNode : NodeData := {| id := "7"; text := []; path := Some [Key "__proto__"] |}.

Definition runtimeList : Host :=
  host [("[]", JArray [])] [("[]", {| nodes := [listNode] |})].

Definition editingFind : State := editing "[]" (Some findNode) [("find", "y")].

Definition editingFindFirst : State :=
  editing "[]" (Some findNode) [("find", "y"); ("name", "Grace")].

End MoreCases.
(** * Properties *)

(** ** Strings *)

Lemma append_assoc (a b c : string) : (a ++ b) ++ c = a ++ (b ++ c).
Proof. induction a as [|x a IH]; simpl; [reflexivity | now rewrite IH]. Qed.

Lemma append_nil_r (a : string) : a ++ "" = a.
Proof. induction a as [|x a IH]; simpl; [reflexivity | now rewrite IH]. Qed.

Lemma append_length (a b : string) :
  String.length (a ++ b) = String.length a + String.length b.
Proof. induction a as [|x a IH]; simpl; [reflexivity | now rewrite IH]. Qed.

Lemma append_inv_head (a b c : string) : a ++ b = a ++ c -> b = c.
Proof.
  induction a as [|x a IH]; simpl; intros E; [assumption|].
  injection E as E. auto.
Qed.

(** ** Serialised strings and paths *)

Lemma unquote_quote (c : ascii) (rest : string) :
  unquote_char (quote_char c ++ rest) = Some (c, rest).
Proof.
  destruct c as [[] [] [] [] [] [] [] []]; reflexivity.
Qed.

Lemma quote_char_head (c : ascii) :
  exists h t, quote_char c = String h t /\ N_of_ascii h <> 34%N.
Proof.
  destruct c as [[] [] [] [] [] [] [] []]; eexists; eexists; (split; [reflexivity|]); vm_compute; discriminate.
Qed.

Lemma quote_chars_inj (s : string) :
  forall t r1 r2,
    quote_chars s ++ dquote ++ r1 = quote_chars t ++ dquote ++ r2 ->
    s = t /\ r1 = r2.
Proof.
  induction s as [|c s IH]; intros [|d t] r1 r2 E.
  - simpl in E. injection E as E. auto.
  - exfalso. cbn [quote_chars] in E. rewrite append_assoc in E.
    destruct (quote_char_head d) as (h & tl & Eq & Hh). rewrite Eq in E.
    simpl in E. injection E as E1 _. apply Hh. now rewrite <- E1.
  - exfalso. cbn [quote_chars] in E. rewrite append_assoc in E.
    destruct (quote_char_head c) as (h & tl & Eq & Hh). rewrite Eq in E.
    simpl in E. injection E as E1 _. apply Hh. now rewrite E1.
  - cbn [quote_chars] in E. rewrite !append_assoc in E.
    apply (f_equal unquote_char) in E. rewrite !unquote_quote in E.
    injection E as -> E. destruct (IH _ _ _ E) as [-> ->]. auto.
Qed.

Lemma string_of_uint_digits (d : Decimal.uint) :
  all_digits (NilEmpty.string_of_uint d) = true.
Proof. induction d; simpl; auto. Qed.

Lemma to_uint_nonnil (n : N) : N.to_uint n <> Decimal.Nil.
Proof.
  destruct n as [|p]; [discriminate|]. apply DecimalPos.Unsigned.to_uint_nonnil.
Qed.

Lemma decimal_unfold (n : N) : decimal n = NilEmpty.string_of_uint (N.to_uint n).
Proof.
  unfold decimal, NilZero.string_of_uint.
  pose proof (to_uint_nonnil n). now destruct (N.to_uint n).
Qed.

Lemma decimal_digits (n : N) : all_digits (decimal n) = true.
Proof. rewrite decimal_unfold. apply string_of_uint_digits. Qed.

Lemma decimal_nonempty (n : N) : decimal n <> "".
Proof.
  rewrite decimal_unfold. pose proof (to_uint_nonnil n).
  destruct (N.to_uint n); simpl; congruence.
Qed.

Lemma decimal_inj (i j : N) : decimal i = decimal j -> i = j.
Proof.
  intros E. apply (f_equal NilZero.uint_of_string) in E. unfold decimal in E.
  rewrite !NilZero.usu in E by apply to_uint_nonnil.
  injection E as E. now apply DecimalN.Unsigned.to_uint_inj.
Qed.

Lemma digits_then_stop (s : string) :
  forall t r1 r2,
    all_digits s = true -> all_digits t = true ->
    stops_number r1 -> stops_number r2 ->
    s ++ r1 = t ++ r2 -> s = t /\ r1 = r2.
Proof.
  induction s as [|c s IH]; intros [|d t] r1 r2 Hs Ht H1 H2 E; simpl in *.
  - auto.
  - exfalso. subst r1. simpl in H1. apply andb_prop in Ht. destruct Ht. congruence.
  - exfalso. subst r2. simpl in H2. apply andb_prop in Hs. destruct Hs. congruence.
  - injection E as -> E. apply andb_prop in Hs, Ht.
    destruct (IH t r1 r2) as [-> ->]; tauto.
Qed.

Lemma printed_rest_stops (segs : JSONPath) : stops_number (printed_rest segs).
Proof. destruct segs; reflexivity. Qed.

Lemma printed_inj (a b : segment) (r1 r2 : string) :
  stops_number r1 -> stops_number r2 ->
  printed a ++ r1 = printed b ++ r2 -> a = b /\ r1 = r2.
Proof.
  intros H1 H2 E. destruct a as [s|i], b as [t|j]; simpl in E.
  - unfold QuoteJSONString in E. rewrite !append_assoc in E.
    injection E as E. destruct (quote_chars_inj _ _ _ _ E) as [-> ->]. auto.
  - exfalso. pose proof (decimal_digits j) as D. pose proof (decimal_nonempty j) as Ne.
    destruct (decimal j) as [|c rest]; [congruence|].
    simpl in E, D. injection E as <- _. discriminate.
  - exfalso. pose proof (decimal_digits i) as D. pose proof (decimal_nonempty i) as Ne.
    destruct (decimal i) as [|c rest]; [congruence|].
    simpl in E, D. injection E as -> _. discriminate.
  - destruct (digits_then_stop _ _ _ _ (decimal_digits i) (decimal_digits j) H1 H2 E)
      as [Ed ->].
    apply decimal_inj in Ed. now subst.
Qed.

Lemma printed_rest_inj (p : JSONPath) :
  forall q, printed_rest p = printed_rest q -> p = q.
Proof.
  unfold printed_rest.
  induction p as [|a p IH]; intros [|b q] E; simpl in E.
  - reflexivity.
  - discriminate.
  - discriminate.
  - injection E as E. rewrite !append_assoc in E.
    apply printed_inj in E; try apply printed_rest_stops.
    destruct E as [-> E]. now rewrite (IH q E).
Qed.

Lemma join_commas (x : string) (l : list string) :
  join "," (x :: l) ++ "]" = x ++ concat_all (map (fun s => "," ++ s) l) ++ "]".
Proof.
  revert x. induction l as [|y l IH]; intros x.
  - reflexivity.
  - change (join "," (x :: y :: l)) with (x ++ "," ++ join "," (y :: l)).
    rewrite !append_assoc. rewrite IH. simpl. now rewrite !append_assoc.
Qed.

Lemma JSON_stringify_path_shape (segs : JSONPath) :
  JSON_stringify_path (Some segs) =
    Some match segs with
         | [] => "[]"
         | seg :: rest => "[" ++ printed seg ++ printed_rest rest
         end.
Proof.
  destruct segs as [|seg rest]; [reflexivity|].
  unfold JSON_stringify_path. f_equal. fold printed. cbn [map].
  unfold bracket. change (String.eqb "" "") with true. cbv iota.
  rewrite join_commas. unfold printed_rest. now rewrite map_map.
Qed.

Lemma printed_head (seg : segment) (r : string) :
  exists c t, printed seg ++ r = String c t /\ N_of_ascii c <> 93%N.
Proof.
  destruct seg as [s|i]; simpl.
  - eexists; eexists; split; [reflexivity|]. vm_compute. discriminate.
  - pose proof (decimal_digits i) as D. pose proof (decimal_nonempty i) as Ne.
    destruct (decimal i) as [|c rest]; [congruence|].
    simpl in *. eexists; eexists; split; [reflexivity|].
    apply andb_prop in D. destruct D as [D _]. unfold is_digit in D.
    apply andb_prop in D. destruct D as [_ D]. apply N.leb_le in D. lia.
Qed.

Lemma JSON_stringify_path_inj (p q : option JSONPath) :
  strict_equal (JSON_stringify_path p) (JSON_stringify_path q) = true <-> p = q.
Proof.
  split; [|intros ->; destruct (JSON_stringify_path q); simpl; auto using String.eqb_refl].
  destruct p as [p|], q as [q|]; try discriminate; [|reflexivity].
  rewrite !JSON_stringify_path_shape. cbn [strict_equal]. intros E.
  apply String.eqb_eq in E. f_equal.
  destruct p as [|a p], q as [|b q].
  - reflexivity.
  - exfalso. destruct (printed_head b (printed_rest q)) as (c & t & Eq & Hc).
    change ("[" ++ printed b ++ printed_rest q)
      with (String "["%char (printed b ++ printed_rest q)) in E.
    rewrite Eq in E. injection E as E _. apply Hc. now rewrite <- E.
  - exfalso. destruct (printed_head a (printed_rest p)) as (c & t & Eq & Hc).
    change ("[" ++ printed a ++ printed_rest p)
      with (String "["%char (printed a ++ printed_rest p)) in E.
    rewrite Eq in E. injection E as E _. apply Hc. now rewrite E.
  - change ("[" ++ printed a ++ printed_rest p)
      with (String "["%char (printed a ++ printed_rest p)) in E.
    change ("[" ++ printed b ++ printed_rest q)
      with (String "["%char (printed b ++ printed_rest q)) in E.
    injection E as E.
    apply printed_inj in E; try apply printed_rest_stops.
    destruct E as [-> E]. now rewrite (printed_rest_inj _ _ E).
Qed.

Section Helpers.
Context {NUM : JSNumber}.

(** ** [coerceValue] *)

Lemma is_type_eqb (type : option string) (t : string) :
  (match type with Some t' => String.eqb t' t | None => false end) = true
  <-> is_type type t.
Proof.
  unfold is_type. destruct type as [t'|]; split; intros E; try discriminate.
  - apply String.eqb_eq in E. now subst.
  - injection E as ->. apply String.eqb_refl.
Qed.

Lemma is_type_eqb_false (type : option string) (t : string) :
  (match type with Some t' => String.eqb t' t | None => false end) = false
  <-> ~ is_type type t.
Proof.
  rewrite <- is_type_eqb. destruct (match type with Some _ => _ | None => _ end);
    split; intros; congruence.
Qed.

(** C3. [coerceValue] turns the text of a field back into a typed value:
    for a row of type "number" it is [Number(v)] unless that is NaN, in
    which case it is [v] itself; for a row of type "boolean" the texts
    "true" and "false" become the booleans; otherwise "null" becomes
    [null]; everything else stays the string [v]. *)
Theorem coerceValue_spec (v : string) (type : option string) :
  (is_type type "number" ->
     coerceValue v type =
       if isNaN (StringToNumber v) then PStr v else PNum (StringToNumber v))
  /\ (is_type type "boolean" -> v = "true" -> coerceValue v type = PBool true)
  /\ (is_type type "boolean" -> v = "false" -> coerceValue v type = PBool false)
  /\ (~ is_type type "number" ->
      ~ (is_type type "boolean" /\ (v = "true" \/ v = "false")) ->
      (v = "null" -> coerceValue v type = PNull)
      /\ (v <> "null" -> coerceValue v type = PStr v)).
Proof.
  unfold coerceValue.
  destruct (match type with Some t => String.eqb t "number" | None => false end) eqn:Tn;
    [apply is_type_eqb in Tn | apply is_type_eqb_false in Tn];
  (destruct (match type with Some t => String.eqb t "boolean" | None => false end) eqn:Tb;
    [apply is_type_eqb in Tb | apply is_type_eqb_false in Tb]);
  unfold is_type in *.
  - congruence.
  - repeat split; intros; solve [reflexivity | congruence | contradiction].
  - split; [congruence|]. split; [intros _ ->; reflexivity|].
    split; [intros _ ->; reflexivity|]. intros _ Hb. simpl.
    destruct (String.eqb v "true") eqn:E1;
      [apply String.eqb_eq in E1; tauto|].
    destruct (String.eqb v "false") eqn:E2;
      [apply String.eqb_eq in E2; tauto|].
    split; [intros ->; reflexivity|].
    intros Hn. apply String.eqb_neq in Hn. now rewrite Hn.
  - split; [congruence|]. split; [congruence|]. split; [congruence|].
    intros _ _. simpl.
    split; [intros ->; reflexivity|].
    intros Hn. apply String.eqb_neq in Hn. now rewrite Hn.
Qed.

(** ** [jsonPathToString] *)

Lemma join_brackets (x : string) (l : list string) :
  "[" ++ join "][" (x :: l) ++ "]" = concat_all (map (fun s => "[" ++ s ++ "]") (x :: l)).
Proof.
  revert x. induction l as [|y l IH]; intros x.
  - simpl. now rewrite append_nil_r.
  - change (join "][" (x :: y :: l)) with (x ++ "][" ++ join "][" (y :: l)).
    change (concat_all (map (fun s => "[" ++ s ++ "]") (x :: y :: l)))
      with (("[" ++ x ++ "]") ++ concat_all (map (fun s => "[" ++ s ++ "]") (y :: l))).
    rewrite <- IH. simpl. f_equal. rewrite !append_assoc. reflexivity.
Qed.

(** C5. [jsonPathToString] shows a path as a query: "$" for a missing or
    empty path; otherwise "$[" then the segments joined by "][" then "]",
    an index shown bare and a key between double quotes.  Put another
    way, every segment contributes its own bracketed group after "$". *)
Theorem jsonPathToString_spec :
  jsonPathToString None = "$"
  /\ jsonPathToString (Some []) = "$"
  /\ (forall seg rest,
        jsonPathToString (Some (seg :: rest))
        = "$[" ++ join "][" (map shown (seg :: rest)) ++ "]")
  /\ (forall path,
        jsonPathToString (Some path)
        = "$" ++ concat_all (map (fun seg => "[" ++ shown seg ++ "]") path)).
Proof.
  split; [reflexivity|]. split; [reflexivity|].
  assert (G : forall seg rest,
             jsonPathToString (Some (seg :: rest))
             = "$[" ++ join "][" (map shown (seg :: rest)) ++ "]") by reflexivity.
  split; [exact G|].
  intros [|seg rest]; [reflexivity|].
  rewrite G.
  change ("$[" ++ join "][" (map shown (seg :: rest)) ++ "]")
    with ("$" ++ ("[" ++ join "][" (shown seg :: map shown rest) ++ "]")).
  rewrite join_brackets. now rewrite <- map_cons, map_map.
Qed.

End Helpers.

Section Walks.
Context {NUM : JSNumber} {REALM : Realm}.

(** ** [setValueAtPath] *)

Lemma located_from (path : JSONPath) :
  forall found : completion jsany,
    fold_left (fun found seg => cur <- found ;; indexed cur seg) path found
    = (cur <- found ;; located cur path).
Proof.
  induction path as [|seg rest IH]; intros found.
  - now destruct found.
  - cbn [fold_left]. rewrite IH. destruct found as [cur|err]; cbn [bind]; [|reflexivity].
    unfold located at 2. cbn [fold_left]. now rewrite IH.
Qed.

Lemma located_cons (root : jsany) (seg : segment) (rest : JSONPath) :
  located root (seg :: rest) = (next <- indexed root seg ;; located next rest).
Proof. unfold located at 1. cbn [fold_left bind]. apply located_from. Qed.

Lemma located_undefined (path : JSONPath) : located (Data None) path = Normal (Data None).
Proof.
  induction path as [|seg rest IH]; [reflexivity|].
  rewrite located_cons. exact IH.
Qed.

Lemma walk_located (path : JSONPath) (cur : jsany) :
  walk cur path = located cur path.
Proof.
  revert cur. induction path as [|seg rest IH]; intros cur; [reflexivity|].
  rewrite located_cons. cbn [walk]. unfold indexed.
  destruct (is_nullish cur); cbn [bind].
  - now rewrite located_undefined.
  - destruct (get_prop cur (property_key seg)) as [next|err]; cbn [bind]; auto.
Qed.

Lemma located_app (root : jsany) (p q : JSONPath) :
  located root (p ++ q)%list = (v <- located root p ;; located v q).
Proof.
  unfold located at 1. rewrite fold_left_app. fold (located root p).
  apply located_from.
Qed.

Lemma located_nullish (cur : jsany) (path : JSONPath) :
  is_nullish cur = true -> path <> [] -> located cur path = Normal (Data None).
Proof.
  intros E. destruct path as [|seg rest]; [congruence|]. intros _.
  rewrite located_cons. unfold indexed. rewrite E. apply located_undefined.
Qed.

Lemma setValueAtPath_located (root : jsany) (path : JSONPath) :
  setValueAtPath root (Some path) = located root path.
Proof. destruct path as [|seg rest]; [reflexivity|]. apply walk_located. Qed.

Lemma located_throws (path : JSONPath) (err : error) :
  forall root,
    located root path = Throw err <->
    exists before seg after cur,
      path = (before ++ seg :: after)%list
      /\ located root before = Normal cur
      /\ is_nullish cur = false
      /\ get_prop cur (property_key seg) = Throw err.
Proof.
  induction path as [|seg rest IH]; intros root.
  - split; [discriminate|]. intros (before & s & after & cur & E & _).
    now destruct before.
  - rewrite located_cons. split.
    + destruct (indexed root seg) as [next|e] eqn:Ei; cbn [bind].
      * intros E. apply IH in E.
        destruct E as (before & s & after & cur & -> & El & Hn & Hg).
        exists (seg :: before), s, after, cur. split; [reflexivity|].
        rewrite located_cons, Ei. auto.
      * intros [= ->]. unfold indexed in Ei.
        destruct (is_nullish root) eqn:En; [discriminate|].
        exists [], seg, rest, root. auto.
    + intros (before & s & after & cur & E & El & Hn & Hg).
      destruct before as [|b before]; cbn [app] in E; injection E as Es Er.
      * subst s rest. injection El as <-. unfold indexed. now rewrite Hn, Hg.
      * subst b rest. rewrite located_cons in El.
        destruct (indexed root seg) as [next|e]; cbn [bind] in *; [|discriminate].
        apply IH. exists before, s, after, cur. auto.
Qed.

(** C6, as the component has it.  [setValueAtPath] walks a path: a
    missing or empty path gives the root; otherwise the root is indexed
    by each segment in order, with the property read of the language,
    and the value located at the full path is returned.  As soon as an
    intermediate value is [null] or [undefined] the result is
    [undefined], whatever follows, and nothing is thrown there.  The
    walk throws in one case only: the read of a segment, on a value that
    is neither [null] nor [undefined], throws. *)
Theorem setValueAtPath_spec (root : jsany) :
  setValueAtPath root None = Normal root
  /\ setValueAtPath root (Some []) = Normal root
  /\ (forall path, setValueAtPath root (Some path) = located root path)
  /\ (forall before after cur,
        located root before = Normal cur -> is_nullish cur = true -> after <> [] ->
        setValueAtPath root (Some (before ++ after)%list) = Normal (Data None))
  /\ (forall path err,
        setValueAtPath root (Some path) = Throw err <->
        exists before seg after cur,
          path = (before ++ seg :: after)%list
          /\ located root before = Normal cur
          /\ is_nullish cur = false
          /\ get_prop cur (property_key seg) = Throw err).
Proof.
  pose proof (setValueAtPath_located root) as G.
  split; [reflexivity|]. split; [reflexivity|]. split; [exact G|]. split.
  - intros before after cur E Hn Hne. rewrite G, located_app, E. cbn [bind].
    now apply located_nullish.
  - intros path err. rewrite G. apply located_throws.
Qed.

(** *** Leaving the document *)

Lemma of_member_outside (m : member builtin) : in_document (of_member m) = false.
Proof. now destruct m as [[p|]|b]. Qed.

Lemma indexed_outside (cur next : jsany) (seg : segment) :
  in_document cur = false -> indexed cur seg = Normal next -> in_document next = false.
Proof.
  unfold indexed. destruct cur as [[[p|elems|inh props]|]|b]; try discriminate; intros _.
  - destruct p; cbn [is_nullish get_prop]; try (intros [= <-]; reflexivity);
      (destruct (scalar_member _ _) as [m|]; cbn [bind]; [|discriminate]);
      intros [= <-]; apply of_member_outside.
  - cbn [is_nullish]. now intros [= <-].
  - cbn [is_nullish get_prop].
    destruct (builtin_get b _) as [m|]; cbn [bind]; [|discriminate].
    intros [= <-]. apply of_member_outside.
Qed.

Lemma located_outside (path : JSONPath) :
  forall cur found,
    in_document cur = false -> located cur path = Normal found ->
    in_document found = false.
Proof.
  induction path as [|seg rest IH]; intros cur found Ho.
  - now intros [= <-].
  - rewrite located_cons. destruct (indexed cur seg) as [next|] eqn:Ei; cbn [bind];
      [|discriminate].
    apply IH. exact (indexed_outside cur seg Ho Ei).
Qed.

Lemma child_own (root c : jsvalue) (k : string) :
  child root k = Some c -> own_prop root k = Some (Some c).
Proof.
  destruct root as [p|elems|inh props]; cbn [child own_prop]; [discriminate| |].
  - destruct (array_index k); [|discriminate].
    destruct (nth_error elems _) as [[e|]|]; try discriminate. now intros [= ->].
  - destruct (lookup k props) as [[e|]|]; try discriminate. now intros [= ->].
Qed.

Lemma own_child (root c : jsvalue) (k : string) :
  own_prop root k = Some (Some c) -> in_document (Data (Some c)) = true ->
  child root k = Some c.
Proof.
  destruct root as [p|elems|inh props]; cbn [child own_prop]; [discriminate| |].
  - destruct (array_index k).
    + destruct (nth_error elems _) as [[e|]|]; try discriminate. now intros [= ->].
    + destruct (String.eqb k "length"); [|discriminate]. intros [= <-]. discriminate.
  - destruct (lookup k props) as [[e|]|]; try discriminate. now intros [= ->].
Qed.

Lemma get_own (root : jsvalue) (k : string) (e : option jsvalue) :
  own_prop root k = Some e -> get_prop (Data (Some root)) k = Normal (Data e).
Proof.
  destruct root as [p|elems|inh props]; [discriminate| |]; intros E;
    cbn [get_prop]; now rewrite E.
Qed.

Lemma own_not_nullish (root : jsvalue) (k : string) (e : option jsvalue) :
  own_prop root k = Some e -> is_nullish (Data (Some root)) = false.
Proof. now destruct root as [p|elems|inh props]. Qed.

Lemma indexed_child (root c : jsvalue) (seg : segment) :
  child root (property_key seg) = Some c ->
  indexed (Data (Some root)) seg = Normal (Data (Some c)).
Proof.
  intros Ec. apply child_own in Ec. unfold indexed.
  now rewrite (own_not_nullish _ _ Ec), (get_own _ _ Ec).
Qed.

Lemma indexed_inside (root : jsvalue) (seg : segment) (next : jsany) :
  indexed (Data (Some root)) seg = Normal next ->
  in_document next = true ->
  exists c, next = Data (Some c) /\ child root (property_key seg) = Some c.
Proof.
  unfold indexed. destruct root as [p|elems|inh props].
  - intros E Hi. rewrite (indexed_outside (Data (Some (VPrim p))) seg eq_refl E) in Hi.
    discriminate.
  - cbn [is_nullish get_prop].
    destruct (own_prop (VArr elems) (property_key seg)) as [[c|]|] eqn:Eo.
    + intros [= <-] Hi. exists c. split; [reflexivity|]. now apply own_child.
    + intros [= <-]. discriminate.
    + destruct (array_member _) as [m|]; cbn [bind]; [|discriminate].
      intros [= <-]. now rewrite of_member_outside.
  - cbn [is_nullish get_prop].
    destruct (own_prop (VObj inh props) (property_key seg)) as [[c|]|] eqn:Eo.
    + intros [= <-] Hi. exists c. split; [reflexivity|]. now apply own_child.
    + intros [= <-]. discriminate.
    + destruct inh; [|intros [= <-]; discriminate].
      destruct (object_member _) as [m|]; cbn [bind]; [|discriminate].
      intros [= <-]. now rewrite of_member_outside.
Qed.

(** A walk that ends on an object or an array of the document went
    through own properties. *)
Lemma located_inside (path : JSONPath) :
  forall root found,
    located (Data (Some root)) path = Normal found ->
    in_document found = true ->
    exists parent,
      found = Data (Some parent)
      /\ descend root (map property_key path) = Some parent.
Proof.
  induction path as [|seg rest IH]; intros root found.
  - intros [= <-] _. exists root. auto.
  - rewrite located_cons.
    destruct (indexed (Data (Some root)) seg) as [next|] eqn:Ei; cbn [bind];
      [|discriminate].
    intros El Hi.
    destruct (in_document next) eqn:Hn.
    + destruct (indexed_inside root seg Ei Hn) as (c & -> & Ec).
      destruct (IH c found El Hi) as (parent & -> & Ed).
      exists parent. split; [reflexivity|]. cbn [map descend]. now rewrite Ec.
    + rewrite (located_outside rest next Hn El) in Hi. discriminate.
Qed.

Lemma descend_located (path : JSONPath) :
  forall root parent,
    descend root (map property_key path) = Some parent ->
    located (Data (Some root)) path = Normal (Data (Some parent)).
Proof.
  induction path as [|seg rest IH]; intros root parent; cbn [map descend].
  - now intros [= ->].
  - destruct (child root (property_key seg)) as [c|] eqn:Ec; [|discriminate].
    intros Ed. rewrite located_cons, (indexed_child root seg Ec). cbn [bind].
    now apply IH.
Qed.

End Walks.

Section Rows.
Context {NUM : JSNumber}.

(** ** Own properties *)

Lemma has_own_In (A : Type) (k : string) (props : list (string * A)) :
  has_own k props = true <-> In k (map fst props).
Proof.
  unfold has_own. induction props as [|[k' a] rest IH]; simpl.
  - split; [discriminate | contradiction].
  - destruct (String.eqb_spec k k') as [->|Hne].
    + split; auto.
    + rewrite IH. split; [auto | intros [E|]; congruence].
Qed.

Lemma place_plain (A : Type) (k : string) (a : A) (props : list (string * A)) :
  array_index k = None -> place k a props = (props ++ [(k, a)])%list.
Proof.
  intros E. induction props as [|[k' a'] rest IH]; simpl; [reflexivity|].
  unfold key_before. rewrite E. now rewrite IH.
Qed.

Lemma object_set_fresh (k : string) (v : option prim)
    (props : list (string * option jsvalue)) :
  plain_key k -> ~ In k (map fst props) ->
  object_set k v (true, props) = (true, (props ++ [(k, option_map VPrim v)])%list).
Proof.
  intros [Hi Hp] Hfresh. unfold object_set.
  apply String.eqb_neq in Hp. rewrite Hp. simpl.
  unfold define_own.
  destruct (has_own k props) eqn:E; [apply has_own_In in E; contradiction|].
  now rewrite place_plain.
Qed.

(** ** [normalizeNodeData] *)

Lemma scalar_entries_cons (row : NodeRow) (rows : list NodeRow) :
  scalar_entries (row :: rows) =
    if is_field row then entry row :: scalar_entries rows else scalar_entries rows.
Proof. unfold scalar_entries. simpl. now destruct (is_field row). Qed.

Lemma collect_step (row : NodeRow) (obj : bool * list (string * option jsvalue)) :
  (if scalar_type (type row) then
     match key row with
     | Some k => if truthy (key row) then object_set k (value row) obj else obj
     | None => obj
     end
   else obj)
  = if is_field row then object_set (fst (entry row)) (value row) obj else obj.
Proof.
  unfold is_field, entry.
  destruct (scalar_type (type row)); [|now rewrite andb_false_r].
  rewrite andb_true_r. destruct (key row) as [k|]; reflexivity.
Qed.

Lemma collect_fields (rows : list NodeRow) :
  forall acc,
    NoDup (map fst (acc ++ scalar_entries rows)%list) ->
    (forall k, In k (map fst (scalar_entries rows)) -> plain_key k) ->
    fold_left
      (fun obj row =>
         if scalar_type (type row) then
           match key row with
           | Some k => if truthy (key row) then object_set k (value row) obj else obj
           | None => obj
           end
         else obj)
      rows (true, acc)
    = (true, (acc ++ scalar_entries rows)%list).
Proof.
  induction rows as [|row rows IH]; intros acc Hnd Hplain.
  - unfold scalar_entries. simpl. now rewrite app_nil_r.
  - cbn [fold_left]. rewrite collect_step.
    rewrite scalar_entries_cons in Hnd, Hplain |- *.
    destruct (is_field row); [|now apply IH].
    rewrite object_set_fresh.
    + rewrite IH.
      * rewrite <- app_assoc. reflexivity.
      * rewrite <- app_assoc. exact Hnd.
      * intros k' Hk'. apply Hplain. now right.
    + apply Hplain. now left.
    + rewrite map_app in Hnd. simpl in Hnd.
      apply NoDup_remove_2 in Hnd. intros Hin. apply Hnd.
      apply in_or_app. now left.
Qed.

Lemma keyed_not_scalar_node (row0 : NodeRow) (rest : list NodeRow) :
  (exists row, In row (row0 :: rest) /\ truthy (key row) = true) ->
  Nat.eqb (length (row0 :: rest)) 1 && negb (truthy (key row0)) = false.
Proof.
  intros [row [Hin Ht]]. destruct rest as [|row1 rest]; [|reflexivity].
  destruct Hin as [<-|[]]. now rewrite Ht.
Qed.

(** C4, as the component has it.  A missing or empty row list gives
    "{}".  For a row list with at least one keyed row, when the kept rows
    (truthy key, type neither "array" nor "object") have pairwise
    distinct keys that are neither array indices nor [__proto__], the
    result is the 2-space JSON text of the object whose entries are
    exactly those rows, key to value, in row order. *)
Theorem normalizeNodeData_fields :
  normalizeNodeData None = "{}"
  /\ normalizeNodeData (Some []) = "{}"
  /\ (forall rows,
        (exists row, In row rows /\ truthy (key row) = true) ->
        NoDup (map fst (scalar_entries rows)) ->
        (forall k, In k (map fst (scalar_entries rows)) -> plain_key k) ->
        normalizeNodeData (Some rows)
        = JSON_stringify (VObj true (scalar_entries rows)) 2).
Proof.
  split; [reflexivity|]. split; [reflexivity|].
  intros [|row0 rest] Hkeyed Hnd Hplain.
  - destruct Hkeyed as [row [[] _]].
  - unfold normalizeNodeData.
    rewrite (keyed_not_scalar_node Hkeyed).
    rewrite (collect_fields (row0 :: rest) [] Hnd Hplain). reflexivity.
Qed.

Lemma quote_char_length (c : ascii) : 1 <= String.length (quote_char c).
Proof.
  unfold quote_char.
  repeat match goal with
         | |- context [if ?b then _ else _] => destruct b
         end; simpl; lia.
Qed.

Lemma quote_chars_length (s : string) :
  String.length s <= String.length (quote_chars s).
Proof.
  induction s as [|c s IH]; simpl; [lia|].
  rewrite append_length. pose proof (quote_char_length c). lia.
Qed.

Lemma QuoteJSONString_longer (s : string) :
  String.length s + 2 <= String.length (QuoteJSONString s).
Proof.
  unfold QuoteJSONString. rewrite !append_length.
  pose proof (quote_chars_length s). simpl. lia.
Qed.

(** C10. For a node that is one row without a key (a scalar node),
    [normalizeNodeData] returns the row's value as a template literal
    prints it, not as JSON text: a string comes without its quotes, and
    [null] and [undefined] come as "null" and "undefined". *)
Theorem normalizeNodeData_scalar (row : NodeRow) :
  truthy (key row) = false ->
  normalizeNodeData (Some [row]) = ToString (value row)
  /\ (forall s, value row = Some (PStr s) ->
        normalizeNodeData (Some [row]) = s
        /\ normalizeNodeData (Some [row]) <> JSON_stringify (VPrim (PStr s)) 2)
  /\ (value row = Some PNull -> normalizeNodeData (Some [row]) = "null")
  /\ (value row = None -> normalizeNodeData (Some [row]) = "undefined").
Proof.
  intros Hk.
  assert (G : normalizeNodeData (Some [row]) = ToString (value row)).
  { unfold normalizeNodeData. simpl. now rewrite Hk. }
  rewrite G. split; [reflexivity|]. split; [|split]; try (intros ->; reflexivity).
  intros s ->. split; [reflexivity|]. simpl. intros E.
  pose proof (QuoteJSONString_longer s) as L.
  unfold JSON_stringify in E. simpl in E. rewrite <- E in L. lia.
Qed.

End Rows.

Section UpdateFacts.
Context {NUM : JSNumber} {REALM : Realm}.

Lemma lookup_overwrite_same (A : Type) (k : string) (a : A) (props : list (string * A)) :
  has_own k props = true -> lookup k (overwrite k a props) = Some a.
Proof.
  unfold has_own. induction props as [|[k' a'] rest IH]; simpl; [discriminate|].
  destruct (String.eqb k k') eqn:E; simpl; rewrite E; auto.
Qed.

Lemma lookup_overwrite_other (A : Type) (k k' : string) (a : A) (props : list (string * A)) :
  k' <> k -> lookup k' (overwrite k a props) = lookup k' props.
Proof.
  intros Hne. induction props as [|[k0 a0] rest IH]; simpl; [reflexivity|].
  destruct (String.eqb_spec k k0) as [->|]; simpl.
  - apply String.eqb_neq in Hne. now rewrite Hne.
  - now rewrite IH.
Qed.

Lemma lookup_place_same (A : Type) (k : string) (a : A) (props : list (string * A)) :
  has_own k props = false -> lookup k (place k a props) = Some a.
Proof.
  unfold has_own. induction props as [|[k' a'] rest IH]; simpl.
  - now rewrite String.eqb_refl.
  - destruct (String.eqb k k') eqn:E; [discriminate|]. intros H.
    destruct (key_before k k'); simpl.
    + now rewrite String.eqb_refl.
    + rewrite E. auto.
Qed.

Lemma lookup_place_other (A : Type) (k k' : string) (a : A) (props : list (string * A)) :
  k' <> k -> lookup k' (place k a props) = lookup k' props.
Proof.
  intros Hne. apply String.eqb_neq in Hne.
  induction props as [|[k0 a0] rest IH]; simpl.
  - now rewrite Hne.
  - destruct (key_before k k0); simpl.
    + now rewrite Hne.
    + now rewrite IH.
Qed.

Lemma lookup_define_own_same (A : Type) (k : string) (a : A) (props : list (string * A)) :
  lookup k (define_own k a props) = Some a.
Proof.
  unfold define_own. destruct (has_own k props) eqn:E.
  - now apply lookup_overwrite_same.
  - now apply lookup_place_same.
Qed.

Lemma lookup_define_own_other (A : Type) (k k' : string) (a : A) (props : list (string * A)) :
  k' <> k -> lookup k' (define_own k a props) = lookup k' props.
Proof.
  intros Hne. unfold define_own. destruct (has_own k props).
  - now apply lookup_overwrite_other.
  - now apply lookup_place_other.
Qed.

Lemma object_set_lookup_same (k : string) (x : option prim)
    (o : bool * list (string * option jsvalue)) :
  k <> "__proto__" -> lookup k (snd (object_set k x o)) = Some (option_map VPrim x).
Proof.
  intros Hne. destruct o as [inh props]. unfold object_set.
  apply String.eqb_neq in Hne. rewrite Hne. simpl.
  apply lookup_define_own_same.
Qed.

Lemma object_set_lookup_other (k k' : string) (x : option prim)
    (o : bool * list (string * option jsvalue)) :
  k' <> k -> lookup k' (snd (object_set k x o)) = lookup k' (snd o).
Proof.
  intros Hne. destruct o as [inh props]. unfold object_set.
  destruct (String.eqb k "__proto__" && inh && negb (has_own k props)).
  - now destruct x as [[| | |]|].
  - simpl. now apply lookup_define_own_other.
Qed.

Lemma nth_error_set_nth (A : Type) (i : nat) (a : A) (l : list A) :
  i < length l -> nth_error (set_nth i a l) i = Some a.
Proof.
  revert l. induction i as [|i IH]; intros [|b l] H; simpl in *; try lia.
  - reflexivity.
  - apply IH. lia.
Qed.

(** *** Assigning through the walked path *)

Lemma child_replace_child (root c c' : jsvalue) (k : string) :
  child root k = Some c -> child (replace_child root k c') k = Some c'.
Proof.
  destruct root as [p|elems|inh props]; cbn [child replace_child]; [discriminate| |].
  - destruct (array_index k) as [i|] eqn:Ei; [|discriminate].
    destruct (nth_error elems (N.to_nat i)) as [[e|]|] eqn:En; try discriminate.
    intros _. cbn [child]. rewrite Ei, nth_error_set_nth; [reflexivity|].
    apply nth_error_Some. congruence.
  - destruct (lookup k props) as [[e|]|] eqn:El; try discriminate.
    intros _. cbn [child]. rewrite lookup_overwrite_same; [reflexivity|].
    unfold has_own. now rewrite El.
Qed.

Lemma update_at_descend (keys : list string) (f : jsvalue -> completion jsvalue) :
  forall root parent,
    descend root keys = Some parent ->
    match f parent with
    | Normal parent' =>
        exists root', update_at keys f root = Normal root'
                      /\ descend root' keys = Some parent'
    | Throw err => update_at keys f root = Throw err
    end.
Proof.
  induction keys as [|k rest IH]; intros root parent; cbn [descend update_at].
  - intros [= ->]. destruct (f parent) as [parent'|err]; eauto.
  - destruct (child root k) as [c|] eqn:Ec; [|discriminate]. intros Ed.
    rewrite (child_own _ _ Ec). specialize (IH c parent Ed).
    destruct (f parent) as [parent'|err].
    + destruct IH as (c' & -> & Ec'). cbn [bind]. eexists. split; [reflexivity|].
      cbn [descend]. now rewrite (child_replace_child root c' _ Ec).
    + now rewrite IH.
Qed.

(** *** The loop of [handleSave] *)

Lemma fieldValue_find (nodeData : option NodeData) (k input : string) :
  coerceValue input
    (option_map type
       match nodeData with
       | Some n => find (fun r => match key r with
                                  | Some rk => String.eqb rk k
                                  | None => false
                                  end) (text n)
       | None => None
       end)
  = fieldValue nodeData (k, input).
Proof. reflexivity. Qed.

Lemma assignField_row (nodeData : option NodeData) (k : string) :
  match nodeData with
  | Some n =>
      if find_replaced [] then Throw TypeError
      else Normal (find (fun r => match key r with
                                  | Some rk => String.eqb rk k
                                  | None => false
                                  end) (text n))
  | None => Normal None
  end
  = Normal match nodeData with
           | Some n => find (fun r => match key r with
                                      | Some rk => String.eqb rk k
                                      | None => false
                                      end) (text n)
           | None => None
           end.
Proof. now destruct nodeData. Qed.

(** The walk ended on an object or an array of the document. *)
Lemma assignField_inside (nodeData : option NodeData) (parent : jsany)
    (parsed : jsvalue) (field : string * string) :
  in_document parent = true ->
  assignField nodeData parent (parsed, []) field =
    (doc <- update_at (map property_key (targetPath nodeData))
              (fun p => assignTo nodeData p field) parsed ;;
     Normal (doc, [])).
Proof.
  intros Hi. destruct field as [k input]. unfold assignField.
  rewrite assignField_row. cbn [bind].
  destruct parent as [[[p|elems|inh props]|]|b]; try discriminate;
    cbn [is_object]; unfold targetPath, assignTo, fieldValue, fieldType; cbn [fst snd];
    destruct (node_path nodeData); reflexivity.
Qed.

(** The walk ended on something that is not an object. *)
Lemma assignField_root (nodeData : option NodeData) (parent : jsany)
    (parsed : jsvalue) (field : string * string) :
  is_object parent = false ->
  assignField nodeData parent (parsed, []) field =
    (doc <- assignTo nodeData parsed field ;; Normal (doc, [])).
Proof.
  intros Ho. destruct field as [k input]. unfold assignField.
  rewrite assignField_row. cbn [bind]. now rewrite Ho.
Qed.

Lemma forEach_ext (A B : Type) (f g : B -> A -> completion B) (l : list A) :
  (forall b a, f b a = g b a) -> forall b, forEach f l b = forEach g l b.
Proof.
  intros Hfg. induction l as [|a l IH]; intros b; simpl; [reflexivity|].
  rewrite Hfg. destruct (g b a); simpl; auto.
Qed.

Lemma forEach_document (nodeData : option NodeData) (parent : jsany)
    (body : jsvalue -> string * string -> completion jsvalue)
    (fields : list (string * string)) :
  (forall parsed field,
     assignField nodeData parent (parsed, []) field
     = (doc <- body parsed field ;; Normal (doc, []))) ->
  forall parsed,
    forEach (assignField nodeData parent) fields (parsed, [])
    = (doc <- forEach body fields parsed ;; Normal (doc, [])).
Proof.
  intros Hb. induction fields as [|field fields IH]; intros parsed; [reflexivity|].
  cbn [forEach]. rewrite Hb.
  destruct (body parsed field) as [doc|err]; cbn [bind]; [apply IH | reflexivity].
Qed.

Lemma forEach_through_parent (nodeData : option NodeData)
    (fields : list (string * string)) :
  forall parsed parent,
    descend parsed (map property_key (targetPath nodeData)) = Some parent ->
    match forEach (assignTo nodeData) fields parent with
    | Normal parent' =>
        exists doc, forEach (assignInside nodeData) fields parsed = Normal doc
                    /\ descend doc (map property_key (targetPath nodeData)) = Some parent'
    | Throw err => forEach (assignInside nodeData) fields parsed = Throw err
    end.
Proof.
  induction fields as [|field fields IH]; intros parsed parent E.
  - simpl. eauto.
  - cbn [forEach]. unfold assignInside at 1 3.
    pose proof (update_at_descend (map property_key (targetPath nodeData))
                  (fun p => assignTo nodeData p field) parsed E) as U.
    cbv beta in U.
    destruct (assignTo nodeData parent field) as [p1|err] eqn:Ea; cbn [bind].
    + destruct U as (root' & -> & E'). cbn [bind]. apply (IH root' p1 E').
    + now rewrite U.
Qed.

(** The walk ended on an object of the realm: the document is left as
    it is, and the fields are assigned to that object in order. *)
Lemma forEach_builtin (nodeData : option NodeData) (b : builtin)
    (fields : list (string * string)) :
  callable b = false ->
  forall parsed done doc done',
    forEach (assignField nodeData (Builtin b)) fields (parsed, done) = Normal (doc, done') ->
    doc = parsed /\ done' = (done ++ assignments nodeData b fields)%list.
Proof.
  intros Hc. induction fields as [|[k input] fields IH]; intros parsed done doc done'.
  - cbn [forEach assignments map]. intros [= <- <-]. now rewrite app_nil_r.
  - cbn [forEach]. unfold assignField at 1. cbn [is_object]. rewrite Hc. cbn [negb].
    destruct nodeData as [n|].
    + destruct (find_replaced done); cbn [bind]; [discriminate|].
      destruct (builtin_set done b k _); cbn [bind]; [|discriminate].
      intros E. apply IH in E. destruct E as [-> ->].
      split; [reflexivity|]. now rewrite <- app_assoc.
    + cbn [bind]. destruct (builtin_set done b k _); cbn [bind]; [|discriminate].
      intros E. apply IH in E. destruct E as [-> ->].
      split; [reflexivity|]. now rewrite <- app_assoc.
Qed.

Lemma forEach_object_fields (nodeData : option NodeData) (fields : list (string * string)) :
  NoDup (map fst fields) ->
  forall inh props,
  exists inh' props',
    forEach (assignTo nodeData) fields (VObj inh props) = Normal (VObj inh' props')
    /\ (forall field, In field fields -> fst field <> "__proto__" ->
          lookup (fst field) props' = Some (Some (VPrim (fieldValue nodeData field))))
    /\ (forall k, ~ In k (map fst fields) -> lookup k props' = lookup k props).
Proof.
  induction fields as [|field fields IH]; intros Hnd inh props.
  - exists inh, props. simpl. repeat split; auto. intros ? [].
  - simpl in Hnd. inversion Hnd as [|? ? Hfresh Hnd']; subst.
    cbn [forEach]. unfold assignTo at 1. cbn [set_prop].
    destruct (object_set (fst field) (Some (fieldValue nodeData field)) (inh, props))
      as [inh1 props1] eqn:Eo.
    cbn [bind].
    destruct (IH Hnd' inh1 props1) as (inh' & props' & -> & Hset & Hkeep).
    exists inh', props'. split; [reflexivity|]. split.
    + intros fld [<-|Hin] Hp.
      * rewrite Hkeep by assumption.
        change props1 with (snd (inh1, props1)). rewrite <- Eo.
        now rewrite object_set_lookup_same.
      * now apply Hset.
    + intros k Hk. simpl in Hk. rewrite Hkeep by tauto.
      change props1 with (snd (inh1, props1)). rewrite <- Eo.
      rewrite object_set_lookup_other; [reflexivity|]. intros ->. tauto.
Qed.

End UpdateFacts.

Section SaveFacts.
Context {NUM : JSNumber} {REALM : Realm} {HOST : Host}.

(** ** The outcome of [handleSave] *)

Lemma setValueAtPath_target (root : jsany) (nodeData : option NodeData) :
  setValueAtPath root (node_path nodeData) = located root (targetPath nodeData).
Proof.
  unfold targetPath. destruct (node_path nodeData) as [segs|]; [|reflexivity].
  apply setValueAtPath_located.
Qed.

Lemma warn_condition (v : jsany) :
  is_nullish v || negb (String.eqb (typeof v) "object") = negb (is_object v).
Proof.
  destruct v as [[[[| | |]| |]|]|b]; try reflexivity.
  cbn. now destruct (callable b).
Qed.

Lemma handleSave_outcome (st : State) :
  handleSave st =
    match editedDocument st with
    | Normal (doc, done) => saved st doc done
    | Throw err => log (Error saveError err) (warned st)
    end.
Proof.
  unfold handleSave, editedDocument, saved, warned, rematched, parsedDocument.
  destruct (if String.eqb (json st) "" then Normal (VObj true [])
            else d <- JSON_parse (json st) ;; Normal (reify d)) as [parsed|err];
    [|reflexivity].
  rewrite setValueAtPath_target. cbn [bind]. fold (editTarget st parsed).
  destruct (editTarget st parsed) as [target|err]; [|reflexivity].
  cbn [bind]. rewrite warn_condition.
  destruct (is_object target); cbn [negb];
    (destruct (forEach _ _ _) as [[doc done]|err]; [|reflexivity]);
    (destruct (parser _) as [graph|err]; [|reflexivity]);
    (destruct (find_replaced done); [reflexivity|]);
    (destruct (find _ _); reflexivity).
Qed.

(** What a save does with the document, by what the walk ended on. *)
Lemma editedDocument_inside (st : State) (parsed : jsvalue) (target : jsany) :
  parsedDocument st = Normal parsed ->
  editTarget st parsed = Normal target ->
  in_document target = true ->
  editedDocument st
  = (doc <- forEach (assignInside (selectedNode st)) (formValues st) parsed ;;
     Normal (doc, [])).
Proof.
  intros Hp Ht Hi. unfold editedDocument. rewrite Hp. cbn [bind]. rewrite Ht. cbn [bind].
  apply forEach_document. intros p field. now apply assignField_inside.
Qed.

Lemma editedDocument_root (st : State) (parsed : jsvalue) (target : jsany) :
  parsedDocument st = Normal parsed ->
  editTarget st parsed = Normal target ->
  is_object target = false ->
  editedDocument st
  = (doc <- forEach (assignTo (selectedNode st)) (formValues st) parsed ;;
     Normal (doc, [])).
Proof.
  intros Hp Ht Ho. unfold editedDocument. rewrite Hp. cbn [bind]. rewrite Ht. cbn [bind].
  apply forEach_document. intros p field. now apply assignField_root.
Qed.

Lemma warned_frame (st : State) :
  json (warned st) = json st /\ file (warned st) = file st
  /\ selectedNode (warned st) = selectedNode st /\ editMode (warned st) = editMode st
  /\ formValues (warned st) = formValues st
  /\ (console (warned st) = console st
      \/ console (warned st) = (console st ++ [Warn rootWarning])%list).
Proof.
  unfold warned. destruct (parsedDocument st) as [parsed|]; [|tauto].
  destruct (editTarget st parsed) as [target|]; [|tauto].
  destruct (is_object target); cbn; tauto.
Qed.

End SaveFacts.

(** * Saving the edits *)

Section Saving.
Context {NUM : JSNumber} {REALM : Realm} {HOST : Host}.

Lemma find_first (A : Type) (f : A -> bool) (l : list A) (x : A) :
  find f l = Some x ->
  exists before after, l = (before ++ x :: after)%list /\ f x = true
                       /\ forall y, In y before -> f y = false.
Proof.
  induction l as [|a l IH]; simpl; [discriminate|].
  destruct (f a) eqn:Ea.
  - intros E. inversion E; subst. exists [], l. repeat split; auto. intros ? [].
  - intros E. destruct (IH E) as (before & after & -> & Hx & Hb).
    exists (a :: before), after. repeat split; auto.
    intros y [<-|Hy]; auto.
Qed.

Lemma rematched_first (st : State) (done : list assignment) (text : string)
    (graph : Graph) :
  parser text = Normal graph ->
  (exists n, In n (nodes graph) /\ path n = node_path (selectedNode st)) ->
  find_replaced done = false ->
  exists matched before after,
    rematched st done text = Some matched
    /\ nodes graph = (before ++ matched :: after)%list
    /\ path matched = node_path (selectedNode st)
    /\ forall n, In n before -> path n <> node_path (selectedNode st).
Proof.
  intros Ep (n & Hin & Hn) Hf. unfold rematched. rewrite Ep, Hf.
  destruct (find (fun n0 => strict_equal (JSON_stringify_path (path n0))
                              (JSON_stringify_path (node_path (selectedNode st))))
                 (nodes graph)) as [matched|] eqn:Ef.
  - destruct (find_first _ _ Ef) as (before & after & El & Hm & Hb).
    exists matched, before, after. split; [reflexivity|]. split; [exact El|].
    split; [now apply JSON_stringify_path_inj|].
    intros y Hy E. apply JSON_stringify_path_inj in E.
    rewrite (Hb y Hy) in E. discriminate.
  - exfalso. pose proof (find_none _ _ Ef n Hin) as F. cbv beta in F.
    apply JSON_stringify_path_inj in Hn. congruence.
Qed.

Lemma rematched_none (st : State) (done : list assignment) (text : string) :
  (exists err, parser text = Throw err)
  \/ (exists graph, parser text = Normal graph
        /\ forall n, In n (nodes graph) -> path n <> node_path (selectedNode st)) ->
  rematched st done text = None.
Proof.
  unfold rematched. intros [[err ->]|(graph & -> & Hno)]; [reflexivity|].
  destruct (find_replaced done); [reflexivity|].
  destruct (find _ (nodes graph)) as [matched|] eqn:Ef; [|reflexivity].
  exfalso. apply find_some in Ef. destruct Ef as [Hin E].
  apply JSON_stringify_path_inj in E. exact (Hno matched Hin E).
Qed.

Lemma editedDocument_through_parent (st : State) (parsed parent doc : jsvalue)
    (done : list assignment) :
  parsedDocument st = Normal parsed ->
  editTarget st parsed = Normal (Data (Some parent)) ->
  in_document (Data (Some parent)) = true ->
  editedDocument st = Normal (doc, done) ->
  done = []
  /\ exists parent',
       located (Data (Some doc)) (targetPath (selectedNode st))
       = Normal (Data (Some parent'))
       /\ forEach (assignTo (selectedNode st)) (formValues st) parent = Normal parent'.
Proof.
  intros Ep Et Hi Ed. rewrite (editedDocument_inside st Ep Et Hi) in Ed.
  destruct (located_inside _ _ Et Hi) as (parent0 & E0 & Hd). injection E0 as <-.
  pose proof (forEach_through_parent (selectedNode st) (formValues st) parsed Hd) as T.
  destruct (forEach (assignTo (selectedNode st)) (formValues st) parent)
    as [parent'|err].
  - destruct T as (doc' & Ed' & Hl). rewrite Ed' in Ed. cbn [bind] in Ed.
    injection Ed as <- <-. split; [reflexivity|]. exists parent'.
    split; [now apply descend_located | reflexivity].
  - rewrite T in Ed. discriminate.
Qed.

Lemma editedDocument_walked (st : State) (doc : jsvalue) (done : list assignment) :
  editedDocument st = Normal (doc, done) ->
  exists parsed target,
    parsedDocument st = Normal parsed /\ editTarget st parsed = Normal target.
Proof.
  unfold editedDocument. destruct (parsedDocument st) as [parsed|]; [|discriminate].
  cbn [bind]. destruct (editTarget st parsed) as [target|] eqn:Et; [|discriminate].
  intros _. exists parsed, target. split; [reflexivity | exact Et].
Qed.

(** C1, as the component has it.  When a save gets as far as
    serialising the document (the text is empty or parses, and neither
    the walk, nor the lookup of a row, nor an assignment throws), the
    edited document is what the JSON store receives, and every field of
    the form was assigned, with its coerced value, to what the walk of
    the node's path ended on.  When that is an object or an array of the
    document, it is found again at the same path of the edited document
    with the fields assigned, each key of a plain object reading back as
    its coerced value.  When it is an object of the realm, reached
    through an inherited member, the fields were assigned to that object
    and the document is the parsed one.  When it is not an object, the
    fields were assigned to the root.  When the parser returns a graph
    with a node whose path equals the edited node's path, and the
    assignments did not replace [find] of [Array.prototype], the first
    such node becomes the selected node. *)
Theorem handleSave_writes_back (st : State) (doc : jsvalue) (done : list assignment) :
  editedDocument st = Normal (doc, done) ->
  json (handleSave st) = JSON_stringify doc 2
  /\ (exists parsed target,
        parsedDocument st = Normal parsed
        /\ editTarget st parsed = Normal target
        /\ (forall parent,
              target = Data (Some parent) -> is_object target = true ->
              done = []
              /\ exists parent',
                   located (Data (Some doc)) (targetPath (selectedNode st))
                   = Normal (Data (Some parent'))
                   /\ forEach (assignTo (selectedNode st)) (formValues st) parent
                      = Normal parent'
                   /\ (forall inherits props field,
                         parent = VObj inherits props ->
                         NoDup (map fst (formValues st)) ->
                         In field (formValues st) -> fst field <> "__proto__" ->
                         get_prop (Data (Some parent')) (fst field)
                         = Normal (Data (Some (VPrim (fieldValue (selectedNode st) field))))))
        /\ (forall b,
              target = Builtin b -> is_object target = true ->
              doc = parsed
              /\ done = assignments (selectedNode st) b (formValues st))
        /\ (is_object target = false ->
            done = []
            /\ forEach (assignTo (selectedNode st)) (formValues st) parsed = Normal doc))
  /\ (forall graph,
        parser (JSON_stringify doc 2) = Normal graph ->
        (exists n, In n (nodes graph) /\ path n = node_path (selectedNode st)) ->
        find_replaced done = false ->
        exists matched before after,
          selectedNode (handleSave st) = Some matched
          /\ nodes graph = (before ++ matched :: after)%list
          /\ path matched = node_path (selectedNode st)
          /\ forall n, In n before -> path n <> node_path (selectedNode st)).
Proof.
  intros Ed. rewrite handleSave_outcome, Ed. cbn [saved json selectedNode].
  split; [reflexivity|]. split.
  - destruct (editedDocument_walked st Ed) as (parsed & target & Hp & Ht).
    exists parsed, target. split; [exact Hp|]. split; [exact Ht|]. split; [|split].
    + intros parent -> Ho.
      assert (Hi : in_document (Data (Some parent)) = true)
        by (destruct parent; [discriminate | reflexivity | reflexivity]).
      destruct (editedDocument_through_parent st Hp Ht Hi Ed) as (-> & parent' & Hl & Hf).
      split; [reflexivity|]. exists parent'. split; [exact Hl|]. split; [exact Hf|].
      intros inherits props field -> Hnd Hin Hk.
      destruct (@forEach_object_fields _ (selectedNode st) (formValues st) Hnd inherits props)
        as (inh' & props' & Hf' & Hset & _).
      rewrite Hf' in Hf. injection Hf as <-.
      apply get_own. cbn [own_prop]. exact (Hset field Hin Hk).
    + intros b -> Ho. cbn [is_object] in Ho. apply negb_true_iff in Ho.
      unfold editedDocument in Ed. rewrite Hp in Ed. cbn [bind] in Ed.
      rewrite Ht in Ed. cbn [bind] in Ed.
      exact (forEach_builtin (selectedNode st) b (formValues st) Ho parsed [] Ed).
    + intros Ho. rewrite (editedDocument_root st Hp Ht Ho) in Ed.
      destruct (forEach (assignTo (selectedNode st)) (formValues st) parsed) as [d|];
        [|discriminate].
      cbn [bind] in Ed. injection Ed as <- <-. auto.
  - intros graph Ep Hn Hf.
    destruct (rematched_first st done _ Ep Hn Hf) as (matched & before & after & -> & Hrest).
    exists matched, before, after. split; [reflexivity | exact Hrest].
Qed.

(** C2, as the component has it.  When the document text is not empty
    and [JSON.parse] rejects it, the save changes nothing: the JSON
    store, the file store, the selected node, the edit mode and the form
    are as before, and the error is logged, nothing else. *)
Theorem handleSave_parse_failure (st : State) (err : error) :
  json st <> "" ->
  JSON_parse (json st) = Throw err ->
  json (handleSave st) = json st
  /\ file (handleSave st) = file st
  /\ selectedNode (handleSave st) = selectedNode st
  /\ editMode (handleSave st) = editMode st
  /\ formValues (handleSave st) = formValues st
  /\ console (handleSave st) = (console st ++ [Error saveError err])%list.
Proof.
  intros Hne Ep. apply String.eqb_neq in Hne.
  assert (Hp : parsedDocument st = Throw err).
  { unfold parsedDocument. now rewrite Hne, Ep. }
  rewrite handleSave_outcome. unfold editedDocument, warned. rewrite Hp.
  cbn [bind]. repeat split; reflexivity.
Qed.

(** C7. When the edits went through and the stores received the new
    text, and the parser then throws or returns no node whose path
    equals the edited node's path, nothing is rolled back and no error
    is reported: both stores hold the new text, the selected node is the
    one from before the edit, and edit mode is left. *)
Theorem handleSave_without_match (st : State) (doc : jsvalue) (done : list assignment) :
  editedDocument st = Normal (doc, done) ->
  ((exists err, parser (JSON_stringify doc 2) = Throw err)
   \/ (exists graph, parser (JSON_stringify doc 2) = Normal graph
         /\ forall n, In n (nodes graph) -> path n <> node_path (selectedNode st))) ->
  json (handleSave st) = JSON_stringify doc 2
  /\ contents (file (handleSave st)) = JSON_stringify doc 2
  /\ selectedNode (handleSave st) = selectedNode st
  /\ editMode (handleSave st) = false
  /\ (forall m, In m (console (handleSave st)) ->
        In m (console st) \/ m = Warn rootWarning).
Proof.
  intros Ed Hp. rewrite handleSave_outcome, Ed.
  cbn [saved json file contents selectedNode editMode console].
  rewrite (@rematched_none st done _ Hp). repeat split; try reflexivity.
  intros m. destruct (warned_frame st) as (_ & _ & _ & _ & _ & [Hc|Hc]);
    rewrite Hc; [auto|].
  intros Hin. apply in_app_or in Hin. destruct Hin as [|[<-|[]]]; auto.
Qed.

Lemma forEach_root_object (nodeData : option NodeData) (fields : list (string * string)) :
  forall inherits props,
  exists inherits' props',
    forEach (assignTo nodeData) fields (VObj inherits props)
    = Normal (VObj inherits' props').
Proof.
  induction fields as [|field fields IH]; intros inherits props.
  - simpl. eauto.
  - cbn [forEach]. unfold assignTo at 1. cbn [set_prop].
    destruct (object_set _ _ (inherits, props)) as [inh1 props1]. cbn [bind].
    apply IH.
Qed.

(** C8, as the component has it.  When the walk of the node's path over
    the parsed document ends on null, undefined or a value that is not
    an object (a scalar, or a function: what [typeof] does not call
    "object"), a warning is logged and every form field is assigned to
    the document root instead.  If none of these assignments throws, the
    save goes on as usual: the stores receive the resulting document and
    edit mode is left.  None throws when the root is a plain object, and
    each key then reads back from the root as its coerced value.  If one
    throws, the save fails after the warning: the error is logged, the
    stores and the edit mode stay as they were. *)
Theorem handleSave_fallback (st : State) (parsed : jsvalue) (target : jsany) :
  parsedDocument st = Normal parsed ->
  editTarget st parsed = Normal target ->
  is_object target = false ->
  (forall doc,
     forEach (assignTo (selectedNode st)) (formValues st) parsed = Normal doc ->
     console (handleSave st) = (console st ++ [Warn rootWarning])%list
     /\ json (handleSave st) = JSON_stringify doc 2
     /\ file (handleSave st)
        = {| contents := JSON_stringify doc 2; hasChanges := false; skipUpdate := true |}
     /\ editMode (handleSave st) = false)
  /\ (forall inherits props,
        parsed = VObj inherits props ->
        exists doc,
          forEach (assignTo (selectedNode st)) (formValues st) parsed = Normal doc
          /\ (NoDup (map fst (formValues st)) ->
              forall field,
                In field (formValues st) -> fst field <> "__proto__" ->
                get_prop (Data (Some doc)) (fst field)
                = Normal (Data (Some (VPrim (fieldValue (selectedNode st) field))))))
  /\ (forall err,
        forEach (assignTo (selectedNode st)) (formValues st) parsed = Throw err ->
        console (handleSave st)
        = (console st ++ [Warn rootWarning; Error saveError err])%list
        /\ json (handleSave st) = json st
        /\ file (handleSave st) = file st
        /\ selectedNode (handleSave st) = selectedNode st
        /\ editMode (handleSave st) = editMode st).
Proof.
  intros Hp Ht Ho.
  pose proof (editedDocument_root st Hp Ht Ho) as Ed.
  assert (Hw : warned st = log (Warn rootWarning) st).
  { unfold warned. now rewrite Hp, Ht, Ho. }
  split; [|split].
  - intros doc Hf. rewrite handleSave_outcome, Ed, Hf.
    cbn [bind saved console json file editMode]. rewrite Hw.
    repeat split; reflexivity.
  - intros inherits props ->.
    destruct (forEach_root_object (selectedNode st) (formValues st) inherits props)
      as (inh' & props' & E).
    exists (VObj inh' props'). split; [exact E|].
    intros Hnd field Hin Hk.
    destruct (@forEach_object_fields _ (selectedNode st) (formValues st) Hnd inherits props)
      as (inh2 & props2 & E2 & Hset & _).
    rewrite E in E2. injection E2 as <- <-.
    apply get_own. cbn [own_prop]. exact (Hset field Hin Hk).
  - intros err Hf. rewrite handleSave_outcome, Ed, Hf, Hw.
    cbn [bind log console json file selectedNode editMode].
    rewrite <- app_assoc. repeat split; reflexivity.
Qed.

(** C9. After a save whose assignments went through, the JSON store and
    the file store hold the same string: the edited document serialised
    by [JSON.stringify] with an indentation of two spaces; the file
    store received it with [hasChanges] false and [skipUpdate] true. *)
Theorem handleSave_stores (st : State) (doc : jsvalue) (done : list assignment) :
  editedDocument st = Normal (doc, done) ->
  json (handleSave st) = JSON_stringify doc 2
  /\ contents (file (handleSave st)) = json (handleSave st)
  /\ hasChanges (file (handleSave st)) = false
  /\ skipUpdate (file (handleSave st)) = true.
Proof.
  intros Ed. rewrite handleSave_outcome, Ed. repeat split; reflexivity.
Qed.

End Saving.

(** * The statements on the sample cases *)

Section OnSamples.
Import Sample Cases.

#[local] Existing Instance numbers.
#[local] Existing Instance realm.

Lemma coerceValue_spec_witness :
  coerceValue "42" (Some "number") = int 42
  /\ coerceValue "true" (Some "boolean") = PBool true
  /\ coerceValue "false" (Some "boolean") = PBool false
  /\ coerceValue "null" (Some "string") = PNull
  /\ coerceValue "true" (Some "string") = PStr "true".
Proof.
  destruct (coerceValue_spec "42" (Some "number")) as (Hnumber & _).
  destruct (coerceValue_spec "true" (Some "boolean")) as (_ & Htrue & _).
  destruct (coerceValue_spec "false" (Some "boolean")) as (_ & _ & Hfalse & _).
  destruct (coerceValue_spec "null" (Some "string")) as (_ & _ & _ & Hnull).
  destruct (coerceValue_spec "true" (Some "string")) as (_ & _ & _ & Hother).
  assert (Hn : ~ is_type (Some "string") "number") by (unfold is_type; discriminate).
  assert (Hb : forall v, ~ (is_type (Some "string") "boolean"
                            /\ (v = "true" \/ v = "false")))
    by (unfold is_type; intros v [E _]; discriminate).
  split; [exact (Hnumber eq_refl)|].
  split; [exact (Htrue eq_refl eq_refl)|].
  split; [exact (Hfalse eq_refl eq_refl)|].
  split.
  - apply (Hnull Hn (Hb _)). reflexivity.
  - apply (Hother Hn (Hb _)). discriminate.
Defined.

Example coerceValue_not_a_number :
  coerceValue "12a" (Some "number") = PStr "12a".
Proof. reflexivity. Qed.

Example jsonPathToString_customer :
  jsonPathToString (Some [Key "customer"; Key "orders"; Index 0])
  = "$[" ++ dquote ++ "customer" ++ dquote ++ "][" ++ dquote ++ "orders" ++ dquote ++ "][0]".
Proof. reflexivity. Qed.

Example normalizeNodeData_customer :
  normalizeNodeData (Some customerRows)
  = "{" ++ newline
    ++ "  " ++ dquote ++ "name" ++ dquote ++ ": " ++ dquote ++ "Ada" ++ dquote ++ "," ++ newline
    ++ "  " ++ dquote ++ "age" ++ dquote ++ ": 36" ++ newline
    ++ "}".
Proof. reflexivity. Qed.

Lemma normalizeNodeData_fields_witness :
  normalizeNodeData (Some customerRows)
  = JSON_stringify
      (VObj true [("name", Some (VPrim (PStr "Ada"))); ("age", Some (VPrim (int 36)))]) 2.
Proof.
  apply (normalizeNodeData_fields (NUM := numbers)).
  - exists (row (Some "name") (Some (PStr "Ada")) "string"). split.
    + simpl. auto.
    + reflexivity.
  - simpl. repeat constructor; simpl; intuition discriminate.
  - simpl. intros k [<-|[<-|[]]]; (split; [reflexivity | discriminate]).
Defined.

(** Rows keyed "2" then "1": the entries come out as "1" then "2", not
    in row order. *)
Lemma normalizeNodeData_index_keys :
  (exists r, In r indexRows /\ truthy (key r) = true)
  /\ normalizeNodeData (Some indexRows)
     = JSON_stringify
         (VObj true [("1", Some (VPrim (PStr "a"))); ("2", Some (VPrim (PStr "b")))]) 2
  /\ normalizeNodeData (Some indexRows)
     <> JSON_stringify (VObj true (scalar_entries indexRows)) 2.
Proof.
  split; [|split].
  - exists (row (Some "2") (Some (PStr "b")) "string"). split; [simpl; auto | reflexivity].
  - reflexivity.
  - apply String.eqb_neq. reflexivity.
Qed.

Lemma normalizeNodeData_scalar_witness :
  normalizeNodeData (Some [scalarRow]) = "hi".
Proof.
  apply (normalizeNodeData_scalar (NUM := numbers) scalarRow); reflexivity.
Defined.

Example setValueAtPath_through_null :
  setValueAtPath (Data (Some (reify (JObject [("customer", JNull)]))))
    (Some [Key "customer"])
  = Normal (Data (Some (VPrim PNull)))
  /\ setValueAtPath (Data (Some (reify (JObject [("customer", JNull)]))))
       (Some [Key "customer"; Key "name"])
     = Normal (Data None).
Proof. split; reflexivity. Qed.

(** What a walk finds outside the document: the name of the constructor
    of an object, the prototype of an object and of a number, a method
    of a number, the length and a character of a string. *)
Example setValueAtPath_inherited :
  setValueAtPath (Data (Some (reify customerDoc))) (Some [Key "constructor"; Key "name"])
  = Normal (Data (Some (VPrim (PStr "Object"))))
  /\ setValueAtPath (Data (Some (reify customerDoc))) (Some [Key "__proto__"])
     = Normal (Builtin ObjectPrototype)
  /\ setValueAtPath (Data (Some (VPrim (int 7)))) (Some [Key "__proto__"])
     = Normal (Builtin NumberPrototype)
  /\ setValueAtPath (Data (Some (VPrim (int 7)))) (Some [Key "toFixed"])
     = Normal (Builtin (Method "Number.prototype" "toFixed" 1))
  /\ setValueAtPath (Data (Some (VPrim (PStr "Ada")))) (Some [Key "length"])
     = Normal (Data (Some (VPrim (int 3))))
  /\ setValueAtPath (Data (Some (VPrim (PStr "Ada")))) (Some [Index 1])
     = Normal (Data (Some (VPrim (PStr "d")))).
Proof. repeat split; reflexivity. Qed.

Lemma setValueAtPath_spec_witness :
  setValueAtPath (Data (Some (reify customerDoc))) (Some [Key "customer"; Key "name"])
  = Normal (Data (Some (VPrim (PStr "Ada"))))
  /\ setValueAtPath (Data (Some (reify customerDoc)))
       (Some ([Key "supplier"] ++ [Key "name"])%list)
     = Normal (Data None)
  /\ setValueAtPath (Data (Some (reify customerDoc)))
       (Some [Key "customer"; Key "name"; Key "constructor"; Key "arguments"])
     = Throw TypeError.
Proof.
  destruct (setValueAtPath_spec (Data (Some (reify customerDoc)))) as (_ & _ & G & E & T).
  split; [|split].
  - rewrite G. reflexivity.
  - apply (E [Key "supplier"] [Key "name"] (Data None)); [reflexivity | reflexivity |].
    discriminate.
  - apply T. exists [Key "customer"; Key "name"; Key "constructor"], (Key "arguments"), [],
      (@Builtin _ realm (Constructor "String")).
    repeat split; reflexivity.
Defined.

(** The walk throws: the path leads, through the constructor that every
    object inherits, to the accessor [caller] of functions. *)
Lemma setValueAtPath_throws :
  setValueAtPath (Data (Some (reify customerDoc))) (Some [Key "constructor"])
  = Normal (Builtin (Constructor "Object"))
  /\ get_prop (Builtin (Constructor "Object")) "caller" = Throw TypeError
  /\ setValueAtPath (Data (Some (reify customerDoc)))
       (Some [Key "constructor"; Key "caller"])
     = Throw TypeError.
Proof. repeat split; reflexivity. Qed.

Lemma handleSave_writes_back_witness :
  json (@handleSave _ _ runtime editingCustomer) = editedText
  /\ (exists matched,
        selectedNode (@handleSave _ _ runtime editingCustomer) = Some matched
        /\ path matched = Some [Key "customer"])
  /\ (exists customer,
        located (Data (Some (reify editedDoc))) [Key "customer"]
        = Normal (Data (Some customer))
        /\ get_prop (Data (Some customer)) "name" = Normal (Data (Some (VPrim (PStr "Grace"))))
        /\ get_prop (Data (Some customer)) "age" = Normal (Data (Some (VPrim (int 37))))).
Proof.
  destruct (@handleSave_writes_back _ _ runtime editingCustomer (reify editedDoc) [])
    as (Hj & (parsed & target & Hp & Ht & Hinside & _) & Hselect).
  - reflexivity.
  - change (Normal (reify customerDoc) = Normal parsed) in Hp. injection Hp as <-.
    change (Normal (Data (Some (VObj true [("name", Some (VPrim (PStr "Ada")));
                                           ("orders", Some (VArr []));
                                           ("age", Some (VPrim (int 36)))])))
            = Normal target) in Ht.
    injection Ht as <-.
    destruct (Hinside _ eq_refl eq_refl) as (_ & customer & Hl & _ & Hread).
    destruct (Hselect editedGraph) as (matched & before & after & Hs & _ & Hm & _).
    { reflexivity. }
    { exists editedNode. split; [simpl; auto | reflexivity]. }
    { reflexivity. }
    split; [exact Hj|]. split; [exists matched; split; [exact Hs | exact Hm]|].
    assert (Hnd : NoDup (map fst customerForm))
      by (repeat constructor; simpl; intuition discriminate).
    exists customer. split; [exact Hl|]. split.
    + apply (Hread _ _ ("name", "Grace") eq_refl Hnd); [simpl; auto | discriminate].
    + apply (Hread _ _ ("age", "37") eq_refl Hnd); [simpl; auto | discriminate].
Defined.

(** The stale node: the walk ends on [Object.prototype], no warning is
    logged, the fields are assigned to the prototype and the document is
    saved as it was parsed. *)
Example handleSave_onto_prototype :
  @editTarget _ _ MoreCases.editingStale (reify customerDoc)
  = Normal (Builtin ObjectPrototype)
  /\ @editedDocument _ _ runtime MoreCases.editingStale
     = Normal (reify customerDoc,
               [(ObjectPrototype, "name", PStr "Grace"); (ObjectPrototype, "age", int 37)])
  /\ json (@handleSave _ _ runtime MoreCases.editingStale) = customerText
  /\ editMode (@handleSave _ _ runtime MoreCases.editingStale) = false
  /\ console (@handleSave _ _ runtime MoreCases.editingStale) = [].
Proof. repeat split; reflexivity. Qed.

(** The walk throws: the save fails before any warning, and nothing is
    stored, although the form is empty. *)
Example handleSave_walk_throws :
  @editTarget _ _ MoreCases.editingCaller (reify customerDoc) = Throw TypeError
  /\ json (@handleSave _ _ runtime MoreCases.editingCaller) = customerText
  /\ file (@handleSave _ _ runtime MoreCases.editingCaller) = file MoreCases.editingCaller
  /\ editMode (@handleSave _ _ runtime MoreCases.editingCaller) = true
  /\ console (@handleSave _ _ runtime MoreCases.editingCaller)
     = [Error saveError TypeError].
Proof. repeat split; reflexivity. Qed.

(** The field named [find] is assigned to [Array.prototype].  When it
    is the last field, the document is stored, and the search of the
    re-parsed graph throws and is ignored: the node stays.  When another
    field follows, looking up its row throws and the save fails. *)
Example handleSave_find_replaced :
  @editTarget _ _ MoreCases.editingFind (VArr []) = Normal (Builtin ArrayPrototype)
  /\ json (@handleSave _ _ MoreCases.runtimeList MoreCases.editingFind) = "[]"
  /\ editMode (@handleSave _ _ MoreCases.runtimeList MoreCases.editingFind) = false
  /\ selectedNode (@handleSave _ _ MoreCases.runtimeList MoreCases.editingFind)
     = Some MoreCases.findNode
  /\ console (@handleSave _ _ MoreCases.runtimeList MoreCases.editingFind) = []
  /\ editMode (@handleSave _ _ MoreCases.runtimeList MoreCases.editingFindFirst) = true
  /\ console (@handleSave _ _ MoreCases.runtimeList MoreCases.editingFindFirst)
     = [Error saveError TypeError].
Proof. repeat split; reflexivity. Qed.

(** The document [null] parses, a field is to be saved, and nothing is
    written and nothing reselected. *)
Lemma handleSave_null_document :
  @JSON_parse _ _ runtime (json editingNullRoot) = Normal JNull
  /\ formValues editingNullRoot = customerForm
  /\ @parsedDocument _ _ runtime editingNullRoot = Normal (VPrim PNull)
  /\ json (@handleSave _ _ runtime editingNullRoot) = json editingNullRoot
  /\ file (@handleSave _ _ runtime editingNullRoot) = file editingNullRoot
  /\ selectedNode (@handleSave _ _ runtime editingNullRoot) = selectedNode editingNullRoot
  /\ editMode (@handleSave _ _ runtime editingNullRoot) = true
  /\ console (@handleSave _ _ runtime editingNullRoot)
     = [Warn rootWarning; Error saveError TypeError].
Proof. repeat split; reflexivity. Qed.

Lemma handleSave_parse_failure_witness :
  json (@handleSave _ _ runtime editingBrokenText) = "{"
  /\ editMode (@handleSave _ _ runtime editingBrokenText) = true
  /\ console (@handleSave _ _ runtime editingBrokenText) = [Error saveError SyntaxError].
Proof.
  destruct (@handleSave_parse_failure _ _ runtime editingBrokenText SyntaxError)
    as (Hj & _ & _ & He & _ & Hc).
  - discriminate.
  - reflexivity.
  - split; [exact Hj|]. split; [exact He | exact Hc].
Defined.

(** The empty text is rejected by [JSON.parse], and the save goes
    through all the same: the stores receive "{}" and edit mode is left. *)
Lemma handleSave_empty_text :
  @JSON_parse _ _ runtime (json editingEmptyText) = Throw SyntaxError
  /\ json (@handleSave _ _ runtime editingEmptyText) = "{}"
  /\ json (@handleSave _ _ runtime editingEmptyText) <> json editingEmptyText
  /\ contents (file (@handleSave _ _ runtime editingEmptyText)) = "{}"
  /\ editMode editingEmptyText = true
  /\ editMode (@handleSave _ _ runtime editingEmptyText) = false
  /\ console (@handleSave _ _ runtime editingEmptyText) = [].
Proof. repeat split; try reflexivity. discriminate. Qed.

Lemma handleSave_without_match_witness :
  (json (@handleSave _ _ runtimeWithoutGraph editingCustomer) = editedText
   /\ selectedNode (@handleSave _ _ runtimeWithoutGraph editingCustomer) = Some customerNode
   /\ editMode (@handleSave _ _ runtimeWithoutGraph editingCustomer) = false)
  /\ (json (@handleSave _ _ runtimeOtherGraph editingCustomer) = editedText
      /\ selectedNode (@handleSave _ _ runtimeOtherGraph editingCustomer) = Some customerNode
      /\ editMode (@handleSave _ _ runtimeOtherGraph editingCustomer) = false).
Proof.
  split.
  - destruct (@handleSave_without_match _ _ runtimeWithoutGraph editingCustomer
                (reify editedDoc) [])
      as (Hj & _ & Hs & He & _).
    + reflexivity.
    + left. exists HostError. reflexivity.
    + split; [exact Hj|]. split; [exact Hs | exact He].
  - destruct (@handleSave_without_match _ _ runtimeOtherGraph editingCustomer
                (reify editedDoc) [])
      as (Hj & _ & Hs & He & _).
    + reflexivity.
    + right. exists {| nodes := [rootNode; ordersNode] |}. split; [reflexivity|].
      intros n [<-|[<-|[]]]; discriminate.
    + split; [exact Hj|]. split; [exact Hs | exact He].
Defined.

Lemma handleSave_fallback_witness :
  exists doc,
    forEach (assignTo (Some supplierNode)) customerForm (reify customerDoc) = Normal doc
    /\ console (@handleSave _ _ runtime editingSupplier) = [Warn rootWarning]
    /\ json (@handleSave _ _ runtime editingSupplier) = JSON_stringify doc 2
    /\ editMode (@handleSave _ _ runtime editingSupplier) = false
    /\ get_prop (Data (Some doc)) "name" = Normal (Data (Some (VPrim (PStr "Grace")))).
Proof.
  destruct (@handleSave_fallback _ _ runtime editingSupplier (reify customerDoc) (Data None))
    as (Hsave & Htotal & _).
  - reflexivity.
  - reflexivity.
  - reflexivity.
  - destruct (Htotal true _ eq_refl) as (doc & Hf & Hread).
    destruct (Hsave doc Hf) as (Hc & Hj & _ & He).
    assert (Hnd : NoDup (map fst customerForm))
      by (repeat constructor; simpl; intuition discriminate).
    exists doc. split; [exact Hf|]. split; [exact Hc|]. split; [exact Hj|].
    split; [exact He|].
    apply (Hread Hnd ("name", "Grace")); [simpl; auto | discriminate].
Defined.

(** The document is [null] and the node's path leads nowhere: the
    warning is logged, the assignment to the root throws, and the save
    fails. *)
Lemma handleSave_fallback_null_root :
  @parsedDocument _ _ runtime editingNullBelow = Normal (VPrim PNull)
  /\ @editTarget _ _ editingNullBelow (VPrim PNull) = Normal (Data None)
  /\ json (@handleSave _ _ runtime editingNullBelow) = json editingNullBelow
  /\ file (@handleSave _ _ runtime editingNullBelow) = file editingNullBelow
  /\ editMode (@handleSave _ _ runtime editingNullBelow) = true
  /\ console (@handleSave _ _ runtime editingNullBelow)
     = [Warn rootWarning; Error saveError TypeError].
Proof. repeat split; reflexivity. Qed.

Lemma handleSave_stores_witness :
  json (@handleSave _ _ runtime editingCustomer) = editedText
  /\ contents (file (@handleSave _ _ runtime editingCustomer))
     = json (@handleSave _ _ runtime editingCustomer)
  /\ hasChanges (file (@handleSave _ _ runtime editingCustomer)) = false
  /\ skipUpdate (file (@handleSave _ _ runtime editingCustomer)) = true.
Proof.
  apply (@handleSave_stores _ _ runtime editingCustomer (reify editedDoc) []).
  reflexivity.
Defined.

End OnSamples.

(** * Further properties *)

(** ** The order of own properties *)

Lemma key_before_irrefl (k : string) : key_before k k = false.
Proof.
  unfold key_before. destruct (array_index k); [apply N.ltb_irrefl | reflexivity].
Qed.

Lemma key_before_asym (k k' : string) :
  key_before k k' = true -> key_before k' k = false.
Proof.
  unfold key_before. destruct (array_index k) as [i|], (array_index k') as [i'|];
    try discriminate; try reflexivity.
  intros E. apply N.ltb_lt in E. apply N.ltb_ge. lia.
Qed.

Lemma key_before_trans (a b c : string) :
  key_before a b = true -> key_before b c = true -> key_before a c = true.
Proof.
  unfold key_before.
  destruct (array_index a) as [i|], (array_index b) as [j|], (array_index c) as [l|];
    try discriminate; try reflexivity.
  intros E1 E2. apply N.ltb_lt in E1, E2. apply N.ltb_lt. lia.
Qed.

Section OrderFacts.
Variable A : Type.
Implicit Types (props : list (string * A)) (k : string) (a : A).

Lemma overwrite_keys k a props : map fst (overwrite k a props) = map fst props.
Proof.
  induction props as [|[k' a'] rest IH]; simpl; [reflexivity|].
  destruct (String.eqb k k'); simpl; [reflexivity | now rewrite IH].
Qed.

Lemma overwrite_ordered k a props : ordered props -> ordered (overwrite k a props).
Proof.
  induction 1 as [|k' a' rest Hfresh Hafter Hord IH]; simpl; [constructor|].
  destruct (String.eqb k k').
  - now constructor.
  - constructor; rewrite ?overwrite_keys; assumption.
Qed.

Lemma place_keys k a props :
  forall x, In x (map fst (place k a props)) <-> x = k \/ In x (map fst props).
Proof.
  induction props as [|[k' a'] rest IH]; intros x; simpl.
  - intuition.
  - destruct (key_before k k'); simpl.
    + intuition.
    + rewrite IH. intuition.
Qed.

Lemma place_ordered k a props :
  ordered props -> ~ In k (map fst props) -> ordered (place k a props).
Proof.
  induction 1 as [|k' a' rest Hfresh Hafter Hord IH]; simpl; intros Hk.
  - constructor; [intros [] | intros ? [] | constructor].
  - destruct (key_before k k') eqn:E.
    + constructor.
      * simpl. tauto.
      * intros x [<-|Hx].
        -- now apply key_before_asym.
        -- destruct (key_before x k) eqn:Ex; [|reflexivity].
           rewrite <- (Hafter x Hx). symmetry. now apply key_before_trans with k.
      * now constructor.
    + constructor.
      * rewrite place_keys. intros [->|Hin]; tauto.
      * intros x Hx. apply place_keys in Hx. destruct Hx as [->|Hx]; auto.
      * apply IH. tauto.
Qed.

Lemma define_own_ordered k a props : ordered props -> ordered (define_own k a props).
Proof.
  intros Hord. unfold define_own. destruct (has_own k props) eqn:E.
  - now apply overwrite_ordered.
  - apply place_ordered; [assumption|]. rewrite <- has_own_In. congruence.
Qed.

Lemma ordered_NoDup props : ordered props -> NoDup (map fst props).
Proof. induction 1; simpl; constructor; assumption. Qed.

Lemma place_last k a props :
  (forall k', In k' (map fst props) -> key_before k k' = false) ->
  place k a props = (props ++ [(k, a)])%list.
Proof.
  induction props as [|[k' a'] rest IH]; simpl; intros H; [reflexivity|].
  rewrite (H k') by auto. rewrite IH; auto.
Qed.

Lemma ordered_middle (l1 : list (string * A)) k a (l2 : list (string * A)) :
  ordered (l1 ++ (k, a) :: l2) ->
  ~ In k (map fst l1) /\ forall k', In k' (map fst l1) -> key_before k k' = false.
Proof.
  induction l1 as [|[k1 a1] l1 IH]; simpl; intros Hord.
  - split; [tauto | intros ? []].
  - inversion Hord as [|? ? ? Hfresh Hafter Hrest]; subst.
    destruct (IH Hrest) as [Hn Hb]. split.
    + intros [->|Hin]; [|tauto]. apply Hfresh. rewrite map_app. simpl.
      apply in_or_app. simpl. auto.
    + intros x [<-|Hx]; [|auto]. apply Hafter. rewrite map_app.
      apply in_or_app. simpl. auto.
Qed.

Lemma spread_from (rest : list (string * A)) :
  forall acc,
    ordered (acc ++ rest) ->
    fold_left (fun acc p => define_own (fst p) (snd p) acc) rest acc = (acc ++ rest)%list.
Proof.
  induction rest as [|[k a] rest IH]; intros acc Hord; simpl.
  - now rewrite app_nil_r.
  - destruct (ordered_middle _ _ _ _ Hord) as [Hn Hb].
    unfold define_own at 2.
    destruct (has_own k acc) eqn:E; [apply has_own_In in E; contradiction|].
    rewrite (place_last _ _ _ Hb). rewrite IH; rewrite <- app_assoc; [reflexivity|].
    exact Hord.
Qed.

Lemma spread_ordered props : ordered props -> spread props = props.
Proof. intros Hord. unfold spread. now rewrite spread_from. Qed.

End OrderFacts.

Lemma fold_left_ext (A B : Type) (f g : A -> B -> A) (l : list B) :
  (forall a b, f a b = g a b) -> forall a, fold_left f l a = fold_left g l a.
Proof.
  intros E. induction l as [|b l IH]; intros a; simpl; [reflexivity|].
  now rewrite E, IH.
Qed.

Lemma find_last (A : Type) (f : A -> bool) (l : list A) (x : A) :
  find f (l ++ [x]) =
    match find f l with
    | Some y => Some y
    | None => if f x then Some x else None
    end.
Proof.
  induction l as [|y l IH]; simpl; [reflexivity|].
  destruct (f y); [reflexivity | exact IH].
Qed.

Section RowFacts.
Context {NUM : JSNumber}.

(** ** The object [normalizeNodeData] prints *)

Lemma normalizeNodeData_collect (rows : list NodeRow) :
  scalar_node rows = false ->
  normalizeNodeData (Some rows)
  = JSON_stringify (VObj (fst (fold_left collect rows (true, [])))
                         (snd (fold_left collect rows (true, [])))) 2.
Proof.
  intros Hs. destruct rows as [|row0 rest]; [reflexivity|].
  unfold normalizeNodeData.
  assert (E : Nat.eqb (length (row0 :: rest)) 1 && negb (truthy (key row0)) = false).
  { destruct rest; [exact Hs | reflexivity]. }
  rewrite E.
  rewrite (fold_left_ext _ collect (row0 :: rest) (fun a b => collect_step b a)).
  reflexivity.
Qed.

Lemma last_field_cons (row : NodeRow) (rows : list NodeRow) (k : string) :
  last_field (row :: rows) k =
    match last_field rows k with
    | Some r => Some r
    | None => if is_field row && keyed k row then Some row else None
    end.
Proof.
  unfold last_field. simpl. destruct (is_field row); simpl.
  - now rewrite find_last.
  - now destruct (find _ _).
Qed.

Lemma is_field_key (row : NodeRow) :
  is_field row = true -> key row = Some (fst (entry row)).
Proof.
  unfold is_field, entry, truthy. now destruct (key row).
Qed.

Lemma keyed_entry (row : NodeRow) (k : string) :
  is_field row = true -> keyed k row = String.eqb (fst (entry row)) k.
Proof. intros F. unfold keyed. now rewrite (is_field_key row F). Qed.

Lemma object_set_ordered (k : string) (v : option prim)
    (o : bool * list (string * option jsvalue)) :
  ordered (snd o) -> ordered (snd (object_set k v o)).
Proof.
  destruct o as [inh props]. unfold object_set. simpl. intros Hord.
  destruct (String.eqb k "__proto__" && inh && negb (has_own k props)).
  - now destruct v as [[| | |]|].
  - simpl. now apply define_own_ordered.
Qed.

Lemma collect_ordered (rows : list NodeRow) :
  forall obj, ordered (snd obj) -> ordered (snd (fold_left collect rows obj)).
Proof.
  induction rows as [|row rows IH]; intros obj Hord; simpl; [assumption|].
  apply IH. unfold collect. destruct (is_field row); [|assumption].
  now apply object_set_ordered.
Qed.

Lemma collect_lookup (rows : list NodeRow) (k : string) :
  k <> "__proto__" ->
  forall obj,
    lookup k (snd (fold_left collect rows obj)) =
      match last_field rows k with
      | Some r => Some (option_map VPrim (value r))
      | None => lookup k (snd obj)
      end.
Proof.
  intros Hk. induction rows as [|row rows IH]; intros obj; simpl; [reflexivity|].
  rewrite IH, last_field_cons. destruct (last_field rows k); [reflexivity|].
  unfold collect. destruct (is_field row) eqn:F; cbn [andb]; [|reflexivity].
  rewrite (keyed_entry row k F).
  destruct (String.eqb_spec (fst (entry row)) k) as [<-|E].
  - now rewrite object_set_lookup_same.
  - rewrite object_set_lookup_other; [reflexivity|]. intros Heq. now apply E.
Qed.

Lemma collect_filter (rows : list NodeRow) :
  forall obj, fold_left collect (filter is_field rows) obj = fold_left collect rows obj.
Proof.
  induction rows as [|row rows IH]; intros obj; simpl; [reflexivity|].
  assert (E : is_field row = false -> collect obj row = obj)
    by (intros F; unfold collect; now rewrite F).
  destruct (is_field row) eqn:F; simpl; rewrite IH; [reflexivity|].
  now rewrite E.
Qed.

Lemma scalar_node_filter (rows : list NodeRow) :
  scalar_node (filter is_field rows) = false.
Proof.
  destruct (filter is_field rows) as [|row rest] eqn:E; [reflexivity|].
  destruct rest; [|reflexivity]. simpl.
  assert (Hin : In row (filter is_field rows)) by (rewrite E; simpl; auto).
  apply filter_In in Hin. destruct Hin as [_ F]. unfold is_field in F.
  apply andb_prop in F. destruct F as [-> _]. reflexivity.
Qed.

(** ** The form the effect fills *)

Lemma initialFormValues_fill (n : NodeData) :
  initialFormValues (Some n) = fold_left fill (text n) [].
Proof.
  unfold initialFormValues. apply fold_left_ext. intros initial row.
  unfold fill, is_field, entry, fieldText.
  destruct (key row) as [k|]; cbn [fst]; [|reflexivity].
  destruct (truthy (Some k) && scalar_type (type row)); [|reflexivity].
  destruct (String.eqb k "__proto__"); [reflexivity|].
  now destruct (value row) as [[| | |]|].
Qed.

Lemma fill_ordered (rows : list NodeRow) :
  forall initial, ordered initial -> ordered (fold_left fill rows initial).
Proof.
  induction rows as [|row rows IH]; intros initial Hord; simpl; [assumption|].
  apply IH. unfold fill. destruct (is_field row); [|assumption].
  destruct (String.eqb _ "__proto__"); [assumption|].
  now apply define_own_ordered.
Qed.

Lemma fill_lookup (rows : list NodeRow) (k : string) :
  k <> "__proto__" ->
  forall initial,
    lookup k (fold_left fill rows initial) =
      match last_field rows k with
      | Some r => Some (fieldText (value r))
      | None => lookup k initial
      end.
Proof.
  intros Hk. induction rows as [|row rows IH]; intros initial; simpl; [reflexivity|].
  rewrite IH, last_field_cons. destruct (last_field rows k); [reflexivity|].
  unfold fill. destruct (is_field row) eqn:F; cbn [andb]; [|reflexivity].
  rewrite (keyed_entry row k F).
  destruct (String.eqb_spec (fst (entry row)) k) as [<-|E].
  - apply String.eqb_neq in Hk. rewrite Hk.
    apply lookup_define_own_same.
  - destruct (String.eqb _ "__proto__"); [reflexivity|].
    rewrite lookup_define_own_other; [reflexivity|]. intros Heq. now apply E.
Qed.

Lemma fill_no_proto (rows : list NodeRow) :
  forall initial,
    lookup "__proto__" (fold_left fill rows initial) = lookup "__proto__" initial.
Proof.
  induction rows as [|row rows IH]; intros initial; simpl; [reflexivity|].
  rewrite IH. unfold fill. destruct (is_field row); [|reflexivity].
  destruct (String.eqb_spec (fst (entry row)) "__proto__") as [E|E]; [reflexivity|].
  rewrite lookup_define_own_other; [reflexivity|]. intros Heq. now apply E.
Qed.

End RowFacts.

(** ** The shown path *)

Lemma concat_all_app (l1 l2 : list string) :
  concat_all (l1 ++ l2) = concat_all l1 ++ concat_all l2.
Proof.
  induction l1 as [|x l1 IH]; simpl; [reflexivity|].
  now rewrite IH, append_assoc.
Qed.

Lemma jsonPathToString_groups (path : JSONPath) :
  jsonPathToString (Some path) = "$" ++ concat_all (map group path).
Proof.
  destruct path as [|seg rest]; [reflexivity|].
  change (jsonPathToString (Some (seg :: rest)))
    with ("$" ++ ("[" ++ join "][" (shown seg :: map shown rest) ++ "]")).
  rewrite join_brackets. now rewrite <- map_cons, map_map.
Qed.

Lemma quote_free_stop (s : string) :
  forall t r1 r2,
    quote_free s = true -> quote_free t = true ->
    s ++ dquote ++ r1 = t ++ dquote ++ r2 -> s = t /\ r1 = r2.
Proof.
  induction s as [|c s IH]; intros [|d t] r1 r2 Hs Ht E; simpl in *.
  - injection E as E. auto.
  - exfalso. injection E as E _. apply andb_prop in Ht. destruct Ht as [Hd _].
    rewrite <- E in Hd. discriminate.
  - exfalso. injection E as E _. apply andb_prop in Hs. destruct Hs as [Hc _].
    rewrite E in Hc. discriminate.
  - injection E as -> E. apply andb_prop in Hs, Ht.
    destruct (IH t r1 r2) as [-> ->]; tauto.
Qed.

Lemma shown_inj (a b : segment) (r1 r2 : string) :
  quote_free_segment a = true -> quote_free_segment b = true ->
  stops_number r1 -> stops_number r2 ->
  shown a ++ r1 = shown b ++ r2 -> a = b /\ r1 = r2.
Proof.
  intros Ha Hb H1 H2 E. destruct a as [s|i], b as [t|j]; simpl in *.
  - rewrite !append_assoc in E. injection E as E.
    destruct (quote_free_stop _ _ _ _ Ha Hb E) as [-> ->]. auto.
  - exfalso. pose proof (decimal_digits j) as D. pose proof (decimal_nonempty j) as Ne.
    destruct (decimal j) as [|c rest]; [congruence|].
    simpl in E, D. injection E as <- _. discriminate.
  - exfalso. pose proof (decimal_digits i) as D. pose proof (decimal_nonempty i) as Ne.
    destruct (decimal i) as [|c rest]; [congruence|].
    simpl in E, D. injection E as -> _. discriminate.
  - destruct (digits_then_stop _ _ _ _ (decimal_digits i) (decimal_digits j) H1 H2 E)
      as [Ed ->].
    apply decimal_inj in Ed. now subst.
Qed.

Lemma groups_inj (p : JSONPath) :
  forall q,
    forallb quote_free_segment p = true -> forallb quote_free_segment q = true ->
    concat_all (map group p) = concat_all (map group q) -> p = q.
Proof.
  induction p as [|a p IH]; intros [|b q] Hp Hq E; simpl in *.
  - reflexivity.
  - discriminate.
  - discriminate.
  - apply andb_prop in Hp, Hq. destruct Hp as [Ha Hp], Hq as [Hb Hq].
    injection E as E. rewrite !append_assoc in E.
    apply shown_inj in E; try assumption; try reflexivity.
    destruct E as [-> E]. injection E as E. now rewrite (IH q Hp Hq E).
Qed.

(** X1.  [jsonPathToString] tells paths apart as long as no key holds a
    double quote: keys are put between quotes as they are. *)
Theorem jsonPathToString_injective (p q : JSONPath) :
  forallb quote_free_segment p = true ->
  forallb quote_free_segment q = true ->
  jsonPathToString (Some p) = jsonPathToString (Some q) ->
  p = q.
Proof.
  intros Hp Hq E. rewrite !jsonPathToString_groups in E. injection E as E.
  now apply groups_inj.
Qed.

(** X2.  The shown path of a node below another starts with the shown path
    of that other node: each further segment adds its bracketed group. *)
Theorem jsonPathToString_extends (p q : JSONPath) :
  jsonPathToString (Some (p ++ q)%list)
  = jsonPathToString (Some p) ++ concat_all (map group q).
Proof.
  rewrite !jsonPathToString_groups, map_app, concat_all_app.
  now rewrite append_assoc.
Qed.

Section WalkFacts.
Context {NUM : JSNumber} {REALM : Realm}.

(** ** Walking paths *)

(** X3.  Walking a path in two legs is walking it at once: the value at
    [p ++ q] is the value at [q] below the value at [p]. *)
Theorem setValueAtPath_composes (root : jsany) (p q : JSONPath) :
  setValueAtPath root (Some (p ++ q)%list)
  = (v <- setValueAtPath root (Some p) ;; setValueAtPath v (Some q)).
Proof.
  rewrite !setValueAtPath_located, located_app.
  destruct (located root p) as [v|err]; cbn [bind]; [|reflexivity].
  now rewrite setValueAtPath_located.
Qed.


End WalkFacts.

Section CoercionFacts.
Context {NUM : JSNumber}.

(** ** Coercion *)

(** X5.  What [coerceValue] returns tells what it was given: a string result
    is the text itself; a number comes only from a row of type "number",
    a boolean only from a row of type "boolean", and [null] only from
    the text "null". *)
Theorem coerceValue_inversion (v : string) (type : option string) :
  match coerceValue v type with
  | PStr s => s = v
  | PNum n => is_type type "number" /\ n = StringToNumber v /\ isNaN n = false
  | PBool b => is_type type "boolean" /\ v = (if b then "true" else "false")
  | PNull => v = "null" /\ ~ is_type type "number"
  end.
Proof.
  unfold coerceValue.
  destruct (match type with Some t => String.eqb t "number" | None => false end) eqn:Tn.
  - apply is_type_eqb in Tn. cbv zeta.
    destruct (isNaN (StringToNumber v)) eqn:En; auto.
  - apply is_type_eqb_false in Tn.
    destruct (match type with Some t => String.eqb t "boolean" | None => false end) eqn:Tb.
    + apply is_type_eqb in Tb. cbn [andb].
      destruct (String.eqb_spec v "true") as [->|]; [auto|].
      destruct (String.eqb_spec v "false") as [->|]; [auto|].
      destruct (String.eqb_spec v "null") as [->|]; auto.
    + cbn [andb]. destruct (String.eqb_spec v "null") as [->|]; auto.
Qed.

(** X6.  Filling the form and coercing back: a boolean field, a string field
    other than "null", and a number field that the runtime reads back
    from its own print come back as they were; a [null] field comes back
    as the empty string. *)
Theorem coerceValue_fieldText :
  (forall b, coerceValue (fieldText (Some (PBool b))) (Some "boolean") = PBool b)
  /\ (forall s, s <> "null" ->
        coerceValue (fieldText (Some (PStr s))) (Some "string") = PStr s)
  /\ (forall n,
        StringToNumber (NumberToString n) = n -> isNaN n = false ->
        coerceValue (fieldText (Some (PNum n))) (Some "number") = PNum n)
  /\ (forall type, ~ is_type type "number" ->
        coerceValue (fieldText (Some PNull)) type = PStr "").
Proof.
  split; [|split; [|split]].
  - intros [|]; reflexivity.
  - intros s Hs. unfold coerceValue. simpl. apply String.eqb_neq in Hs. now rewrite Hs.
  - intros n Hr Hn. unfold coerceValue. simpl. now rewrite Hr, Hn.
  - intros type Ht. unfold coerceValue. apply is_type_eqb_false in Ht. rewrite Ht.
    simpl. now rewrite !andb_false_r.
Qed.

End CoercionFacts.

Section FormFacts.
Context {NUM : JSNumber} {REALM : Realm} {HOST : Host}.

(** ** What the modal shows of a node's rows *)

(** X7.  Rows that are not kept (no key, or an array or object type) have no
    part in the content shown, as long as the node is not a single row
    without a key. *)
Theorem normalizeNodeData_only_fields (rows : list NodeRow) :
  scalar_node rows = false ->
  normalizeNodeData (Some rows) = normalizeNodeData (Some (filter is_field rows)).
Proof.
  intros Hs. rewrite (normalizeNodeData_collect rows Hs).
  rewrite (normalizeNodeData_collect _ (scalar_node_filter rows)).
  now rewrite collect_filter.
Qed.

(** X8.  Whatever the keys of the rows, the content shown is the JSON text of
    an object whose keys are distinct and in object order, and in which
    a key other than [__proto__] holds the value of the last kept row
    with that key, and is absent when there is no such row. *)
Theorem normalizeNodeData_last_row_wins (rows : list NodeRow) :
  scalar_node rows = false ->
  exists inherits props,
    normalizeNodeData (Some rows) = JSON_stringify (VObj inherits props) 2
    /\ ordered props
    /\ NoDup (map fst props)
    /\ forall k, k <> "__proto__" ->
         lookup k props
         = option_map (fun r => option_map VPrim (value r)) (last_field rows k).
Proof.
  intros Hs. rewrite (normalizeNodeData_collect rows Hs).
  assert (Hord : ordered (snd (fold_left collect rows (true, []))))
    by (apply collect_ordered; constructor).
  eexists. eexists. split; [reflexivity|]. split; [exact Hord|].
  split; [now apply ordered_NoDup|].
  intros k Hk. rewrite (collect_lookup rows Hk).
  now destruct (last_field rows k).
Qed.

(** ** The form *)

Lemma initialFormValues_ordered (nodeData : option NodeData) :
  ordered (initialFormValues nodeData).
Proof.
  destruct nodeData as [n|]; [|constructor].
  rewrite initialFormValues_fill. apply fill_ordered. constructor.
Qed.

(** X9.  The form filled from a node has distinct keys in object order, never
    the key [__proto__], and under any other key the text of the last
    kept row with that key: [String(value)], or the empty text for
    [null]. *)
Theorem initialFormValues_entries (n : NodeData) :
  ordered (initialFormValues (Some n))
  /\ NoDup (map fst (initialFormValues (Some n)))
  /\ lookup "__proto__" (initialFormValues (Some n)) = None
  /\ forall k, k <> "__proto__" ->
       lookup k (initialFormValues (Some n))
       = option_map (fun r => fieldText (value r)) (last_field (text n) k).
Proof.
  split; [apply initialFormValues_ordered|].
  split; [apply ordered_NoDup, initialFormValues_ordered|].
  rewrite initialFormValues_fill. split; [apply fill_no_proto|].
  intros k Hk. rewrite (fill_lookup (text n) Hk).
  now destruct (last_field (text n) k).
Qed.

Lemma last_field_only (rows : list NodeRow) (row : NodeRow) (k : string) :
  In row rows -> is_field row = true -> key row = Some k ->
  (forall r, In r rows -> is_field r = true -> key r = Some k -> r = row) ->
  last_field rows k = Some row.
Proof.
  intros Hin F Hk Honly. unfold last_field.
  destruct (find (keyed k) (rev (filter is_field rows))) as [r|] eqn:E.
  - apply find_some in E. destruct E as [Hr Hkr].
    apply in_rev, filter_In in Hr. destruct Hr as [Hr Fr].
    f_equal. apply Honly; try assumption.
    unfold keyed in Hkr. destruct (key r) as [rk|]; [|discriminate].
    apply String.eqb_eq in Hkr. now subst.
  - exfalso. pose proof (find_none _ _ E row) as N. cbv beta in N.
    assert (Hr : In row (rev (filter is_field rows)))
      by (apply in_rev; rewrite rev_involutive; apply filter_In; auto).
    specialize (N Hr). unfold keyed in N. rewrite Hk, String.eqb_refl in N.
    discriminate.
Qed.

(** X10.  Once the effect has run, every row that gets an input has an entry
    in the form (unless its key is [__proto__]); when no other kept row
    has the same key, the entry is the text of the row's own value. *)
Theorem editableRows_have_entries (st : State) (row : NodeRow) (k : string) :
  In row (editableRows (selectedNode st)) ->
  key row = Some k -> k <> "__proto__" ->
  (exists r, In r (editableRows (selectedNode st)) /\ key r = Some k
             /\ lookup k (formValues (populateFormValues st)) = Some (fieldText (value r)))
  /\ ((forall r, In r (editableRows (selectedNode st)) -> key r = Some k -> r = row) ->
      lookup k (formValues (populateFormValues st)) = Some (fieldText (value row))).
Proof.
  intros Hin Hk Hp. unfold populateFormValues.
  destruct (selectedNode st) as [n|] eqn:En; [|destruct Hin].
  cbn [setFormValues formValues]. unfold editableRows in *.
  fold is_field in Hin |- *.
  rewrite initialFormValues_fill, (fill_lookup (text n) Hp).
  assert (Hex : exists r, last_field (text n) k = Some r).
  { unfold last_field.
    destruct (find (keyed k) (rev (filter is_field (text n)))) as [r|] eqn:E; [eauto|].
    exfalso. pose proof (find_none _ _ E row) as N. cbv beta in N.
    assert (Hr : In row (rev (filter is_field (text n))))
      by (apply in_rev; now rewrite rev_involutive).
    specialize (N Hr). unfold keyed in N. rewrite Hk, String.eqb_refl in N.
    discriminate. }
  destruct Hex as [r Er]. rewrite Er. split.
  - exists r. unfold last_field in Er. apply find_some in Er. destruct Er as [Hr Hkr].
    apply in_rev in Hr. split; [exact Hr|]. split; [|reflexivity].
    unfold keyed in Hkr. destruct (key r) as [rk|]; [|discriminate].
    apply String.eqb_eq in Hkr. now subst.
  - intros Honly. apply filter_In in Hin. destruct Hin as [Hin F].
    rewrite (@last_field_only (text n) row k Hin F Hk) in Er.
    + now injection Er as <-.
    + intros r0 H0 F0 K0. apply Honly; [|assumption]. apply filter_In. auto.
Qed.

Lemma spread_is_ordered (A : Type) (prev : list (string * A)) : ordered (spread prev).
Proof.
  unfold spread.
  assert (G : forall acc, ordered acc ->
                ordered (fold_left (fun acc p => define_own (fst p) (snd p) acc) prev acc)).
  { induction prev as [|p prev IH]; intros acc Hacc; simpl; [assumption|].
    apply IH. now apply define_own_ordered. }
  apply G. constructor.
Qed.

Lemma onChange_sets_field_lemma (row : NodeRow) (input : string) (st : State) (k : string) :
  key row = Some k ->
  lookup k (formValues (onChange row input st)) = Some input
  /\ ordered (formValues (onChange row input st)).
Proof.
  intros Hk. unfold onChange. rewrite Hk. cbn [setFormValues formValues].
  split; [apply lookup_define_own_same | apply define_own_ordered, spread_is_ordered].
Qed.

(** X11.  Typing in the input of a row puts the text under the row's key and
    touches nothing but the form; the form comes out with distinct keys
    in object order.  When it went in that way, every other key keeps
    its text, and a key that was there keeps its place. *)
Theorem onChange_sets_field (row : NodeRow) (k input : string) (st : State) :
  key row = Some k ->
  lookup k (formValues (onChange row input st)) = Some input
  /\ ordered (formValues (onChange row input st))
  /\ json (onChange row input st) = json st
  /\ file (onChange row input st) = file st
  /\ selectedNode (onChange row input st) = selectedNode st
  /\ editMode (onChange row input st) = editMode st
  /\ (ordered (formValues st) ->
      (forall k', k' <> k ->
         lookup k' (formValues (onChange row input st)) = lookup k' (formValues st))
      /\ (In k (map fst (formValues st)) ->
          map fst (formValues (onChange row input st)) = map fst (formValues st))).
Proof.
  intros Hk. unfold onChange. rewrite Hk. cbn [setFormValues formValues json file
    selectedNode editMode].
  split; [apply lookup_define_own_same|].
  split; [apply define_own_ordered, spread_is_ordered|].
  repeat (split; [reflexivity|]).
  intros Hord. rewrite (spread_ordered Hord). split.
  - intros k' Hne. now apply lookup_define_own_other.
  - intros Hin. unfold define_own. apply has_own_In in Hin. rewrite Hin.
    apply overwrite_keys.
Qed.

Lemma typing_frame (events : list event) :
  forallb is_typing events = true ->
  forall st,
    json (run events st) = json st /\ file (run events st) = file st
    /\ selectedNode (run events st) = selectedNode st
    /\ console (run events st) = console st.
Proof.
  unfold run. induction events as [|e events IH]; intros Hty st; [cbn; auto|].
  cbn [forallb] in Hty. apply andb_prop in Hty. destruct Hty as [He Hty].
  cbn [fold_left]. destruct (IH Hty (handle st e)) as (-> & -> & -> & ->).
  destruct e; try discriminate. cbn. auto.
Qed.

(** X12.  Cancel puts the form back as the effect filled it, leaves edit mode
    and touches nothing else; and whatever was typed before is gone:
    Cancel after any amount of typing ends in the state Cancel ends in
    right away. *)
Theorem handleCancel_restores (st : State) :
  formValues (handleCancel st) = formValues (populateFormValues st)
  /\ editMode (handleCancel st) = false
  /\ json (handleCancel st) = json st
  /\ file (handleCancel st) = file st
  /\ selectedNode (handleCancel st) = selectedNode st
  /\ console (handleCancel st) = console st
  /\ (forall events,
        forallb is_typing events = true ->
        run (events ++ [CancelClicked]) st = handleCancel st).
Proof.
  split; [unfold handleCancel, populateFormValues; now destruct (selectedNode st)|].
  repeat (split; [reflexivity|]).
  intros events Hty. unfold run. rewrite fold_left_app. cbn [fold_left handle].
  fold (run events st). destruct (typing_frame events Hty st) as (Ej & Ef & Es & Ec).
  unfold handleCancel, setEditMode, setFormValues. cbn [json file selectedNode
    editMode formValues console]. now rewrite Ej, Ef, Es, Ec.
Qed.

Lemma handleSave_formValues (st : State) : formValues (handleSave st) = formValues st.
Proof.
  rewrite handleSave_outcome. destruct (editedDocument st) as [[doc done]|err];
    [reflexivity|].
  cbn [log formValues]. apply warned_frame.
Qed.

Lemma handle_ordered (st : State) (e : event) :
  ordered (formValues st) -> ordered (formValues (handle st e)).
Proof.
  intros Hord. destruct e as [|row input| | |]; cbn [handle].
  - unfold populateFormValues. destruct (selectedNode st) as [n|].
    + apply initialFormValues_ordered.
    + constructor.
  - unfold onChange. cbn [setFormValues formValues].
    apply define_own_ordered, spread_is_ordered.
  - exact Hord.
  - now rewrite handleSave_formValues.
  - apply initialFormValues_ordered.
Qed.

(** X13.  Whatever happens to the component, in whatever order, the keys of
    the form stay distinct and in object order, starting from the empty
    form the component is created with. *)
Theorem form_stays_ordered (events : list event) (st : State) :
  ordered (formValues st) ->
  ordered (formValues (run events st))
  /\ NoDup (map fst (formValues (run events st))).
Proof.
  intros Hord.
  assert (G : ordered (formValues (run events st))).
  { unfold run. revert st Hord.
    induction events as [|e events IH]; intros st Hord; simpl; [assumption|].
    apply IH. now apply handle_ordered. }
  split; [exact G | now apply ordered_NoDup].
Qed.

End FormFacts.

Section SaveFrame.
Context {NUM : JSNumber} {REALM : Realm}.

(** ** What an assignment through the path leaves alone *)




Lemma set_nth_same (A : Type) (i : nat) (a : A) (l : list A) :
  nth_error l i = Some a -> set_nth i a l = l.
Proof.
  revert l. induction i as [|i IH]; intros [|b l]; simpl; try discriminate.
  - now intros [= ->].
  - intros E. now rewrite IH.
Qed.

Lemma overwrite_same (A : Type) (k : string) (a : A) (props : list (string * A)) :
  lookup k props = Some a -> overwrite k a props = props.
Proof.
  induction props as [|[k' a'] rest IH]; simpl; [reflexivity|].
  destruct (String.eqb k k').
  - now intros [= ->].
  - intros E. now rewrite IH.
Qed.





Lemma replace_child_same (root c : jsvalue) (k : string) :
  child root k = Some c -> replace_child root k c = root.
Proof.
  destruct root as [p|elems|inh props]; cbn [replace_child child]; [reflexivity| |].
  - destruct (array_index k) as [i|]; [|reflexivity].
    destruct (nth_error elems (N.to_nat i)) as [[e|]|] eqn:En; try discriminate.
    intros [= ->]. now rewrite set_nth_same.
  - destruct (lookup k props) as [[e|]|] eqn:El; try discriminate.
    intros [= ->]. now rewrite overwrite_same.
Qed.



Lemma update_at_same (keys : list string) (f : jsvalue -> completion jsvalue) :
  forall root parent,
    descend root keys = Some parent ->
    f parent = Normal parent ->
    update_at keys f root = Normal root.
Proof.
  induction keys as [|k rest IH]; intros root parent; cbn [descend update_at].
  - now intros [= ->].
  - destruct (child root k) as [c|] eqn:Ec; [|discriminate]. intros Ed Hf.
    rewrite (child_own _ _ Ec), (IH c parent Ed Hf). cbn [bind].
    now rewrite (replace_child_same root k Ec).
Qed.


Lemma forEach_keeps_keys (nodeData : option NodeData) (fields : list (string * string)) :
  forall inherits props,
    (forall field, In field fields -> In (fst field) (map fst props)) ->
    exists props',
      forEach (assignTo nodeData) fields (VObj inherits props) = Normal (VObj inherits props')
      /\ map fst props' = map fst props.
Proof.
  induction fields as [|field fields IH]; intros inherits props Hown.
  - exists props. split; reflexivity.
  - cbn [forEach]. unfold assignTo at 1. cbn [set_prop]. unfold object_set.
    assert (Ho : has_own (fst field) props = true)
      by (apply has_own_In, Hown; simpl; auto).
    rewrite Ho, andb_false_r. unfold define_own. rewrite Ho. cbn [bind].
    destruct (IH inherits (overwrite (fst field) (Some (VPrim (fieldValue nodeData field))) props))
      as (props' & E & Hk).
    + intros fld Hin. rewrite overwrite_keys. apply Hown. simpl. auto.
    + exists props'. split; [exact E|]. now rewrite Hk, overwrite_keys.
Qed.

Lemma forEach_same (nodeData : option NodeData) (fields : list (string * string)) :
  forall inherits props,
    (forall field, In field fields ->
       lookup (fst field) props = Some (Some (VPrim (fieldValue nodeData field)))) ->
    forEach (assignTo nodeData) fields (VObj inherits props) = Normal (VObj inherits props).
Proof.
  induction fields as [|field fields IH]; intros inherits props Hsame; [reflexivity|].
  cbn [forEach]. unfold assignTo at 1. cbn [set_prop]. unfold object_set.
  assert (El : lookup (fst field) props = Some (Some (VPrim (fieldValue nodeData field))))
    by (apply Hsame; simpl; auto).
  assert (Ho : has_own (fst field) props = true) by (unfold has_own; now rewrite El).
  rewrite Ho, andb_false_r. unfold define_own. rewrite Ho.
  cbn [option_map]. rewrite (overwrite_same _ _ El). cbn [bind].
  apply IH. intros fld Hin. apply Hsame. simpl. auto.
Qed.

Lemma forEach_through_same (nodeData : option NodeData)
    (fields : list (string * string)) (parsed parent : jsvalue) :
  descend parsed (map property_key (targetPath nodeData)) = Some parent ->
  (forall field, In field fields -> assignTo nodeData parent field = Normal parent) ->
  forEach (assignInside nodeData) fields parsed = Normal parsed.
Proof.
  intros El. induction fields as [|field fields IH]; intros Hsame; [reflexivity|].
  cbn [forEach]. unfold assignInside at 1.
  rewrite (update_at_same (map property_key (targetPath nodeData))
             (fun p => assignTo nodeData p field) parsed El).
  - cbn [bind]. apply IH. intros fld Hin. apply Hsame. simpl. auto.
  - apply Hsame. simpl. auto.
Qed.

Lemma forEach_keeps_prototype (nodeData : option NodeData)
    (fields : list (string * string)) :
  ~ In "__proto__" (map fst fields) ->
  forall inherits props inherits' props',
    forEach (assignTo nodeData) fields (VObj inherits props) = Normal (VObj inherits' props') ->
    inherits' = inherits.
Proof.
  induction fields as [|field fields IH]; intros Hfree inherits props inherits' props'.
  - now intros [= <- _].
  - cbn [forEach]. unfold assignTo at 1. cbn [set_prop]. unfold object_set.
    assert (Hk : String.eqb (fst field) "__proto__" = false).
    { apply String.eqb_neq. intros E. apply Hfree. simpl. auto. }
    rewrite Hk. cbn [andb bind]. apply IH. intros Hin. apply Hfree. simpl. auto.
Qed.

Lemma lookup_In (A : Type) (k : string) (a : A) (props : list (string * A)) :
  lookup k props = Some a -> In (k, a) props.
Proof.
  induction props as [|[k' a'] rest IH]; simpl; [discriminate|].
  destruct (String.eqb_spec k k') as [->|].
  - intros [= ->]. auto.
  - auto.
Qed.

Lemma In_lookup (A : Type) (k : string) (a : A) (props : list (string * A)) :
  NoDup (map fst props) -> In (k, a) props -> lookup k props = Some a.
Proof.
  induction props as [|[k' a'] rest IH]; simpl; [intros _ []|].
  intros Hnd [E|Hin]; inversion Hnd as [|? ? Hfresh Hnd']; subst.
  - inversion E; subst. now rewrite String.eqb_refl.
  - destruct (String.eqb_spec k k') as [->|]; [|auto].
    exfalso. apply Hfresh. change k' with (fst (k', a)). now apply in_map.
Qed.

End SaveFrame.

Section SaveMore.
Context {NUM : JSNumber} {REALM : Realm} {HOST : Host}.

(** ** More on saving *)

Lemma rematched_path (st : State) (done : list assignment) (text : string)
    (matched : NodeData) :
  rematched st done text = Some matched -> path matched = node_path (selectedNode st).
Proof.
  unfold rematched. destruct (parser text) as [graph|]; [|discriminate].
  destruct (find_replaced done); [discriminate|].
  intros E. apply find_some in E. destruct E as [_ E].
  now apply JSON_stringify_path_inj.
Qed.

(** X14.  A save is all or nothing.  Either it fails: the stores, the selected
    node, the edit mode and the form are as before and the console has
    one more error (after the warning, if there was one).  Or it goes
    through: both stores hold the same new text, flagged as unchanged and
    not to be propagated, edit mode is left, the form is as before and at
    most the warning was logged. *)
Theorem handleSave_all_or_nothing (st : State) :
  exists warnings,
    (warnings = [] \/ warnings = [Warn rootWarning])
    /\ formValues (handleSave st) = formValues st
    /\ ((exists err,
           json (handleSave st) = json st
           /\ file (handleSave st) = file st
           /\ selectedNode (handleSave st) = selectedNode st
           /\ editMode (handleSave st) = editMode st
           /\ console (handleSave st)
              = (console st ++ warnings ++ [Error saveError err])%list)
        \/ (contents (file (handleSave st)) = json (handleSave st)
            /\ hasChanges (file (handleSave st)) = false
            /\ skipUpdate (file (handleSave st)) = true
            /\ editMode (handleSave st) = false
            /\ console (handleSave st) = (console st ++ warnings)%list)).
Proof.
  destruct (warned_frame st) as (Hj & Hf & Hs & He & Hv & Hc).
  assert (W : exists warnings,
             (warnings = [] \/ warnings = [Warn rootWarning])
             /\ console (warned st) = (console st ++ warnings)%list).
  { destruct Hc as [Hc|Hc]; [exists [] | exists [Warn rootWarning]]; rewrite Hc;
      rewrite ?app_nil_r; auto. }
  destruct W as (warnings & Hw & Ec). exists warnings. split; [exact Hw|].
  split; [apply handleSave_formValues|].
  rewrite handleSave_outcome. destruct (editedDocument st) as [[doc done]|err].
  - right. cbn [saved file contents json hasChanges skipUpdate editMode console].
    repeat split; try reflexivity. exact Ec.
  - left. exists err. cbn [log json file selectedNode editMode console].
    rewrite Ec, <- app_assoc. auto.
Qed.

(** X15.  A save never moves the selection to another place of the document:
    the path of the selected node, and so the path the modal shows, is
    the same after [handleSave] as before, whether the node was replaced
    or kept. *)
Theorem handleSave_keeps_path (st : State) :
  node_path (selectedNode (handleSave st)) = node_path (selectedNode st)
  /\ shownPath (selectedNode (handleSave st)) = shownPath (selectedNode st).
Proof.
  assert (G : node_path (selectedNode (handleSave st)) = node_path (selectedNode st)).
  { rewrite handleSave_outcome. destruct (editedDocument st) as [[doc done]|err].
    - cbn [saved selectedNode].
      destruct (rematched st done (JSON_stringify doc 2)) as [matched|] eqn:E;
        [|reflexivity].
      cbn [node_path].
      now apply rematched_path with (done := done) (text := JSON_stringify doc 2).
    - cbn [log selectedNode]. f_equal. apply warned_frame. }
  split; [exact G|]. unfold shownPath. now rewrite G.
Qed.

(** X16.  With nothing in the form, a save of a text that parses (or is
    empty) fails in one case only: the walk of the node's path throws.
    Otherwise, whatever the document is, scalars and [null] included,
    the stores receive the document as [JSON.stringify] prints it, and
    no error is logged. *)
Theorem handleSave_empty_form (st : State) (parsed : jsvalue) :
  formValues st = [] ->
  parsedDocument st = Normal parsed ->
  (forall target,
     editTarget st parsed = Normal target ->
     json (handleSave st) = JSON_stringify parsed 2
     /\ contents (file (handleSave st)) = JSON_stringify parsed 2
     /\ editMode (handleSave st) = false
     /\ forall m, In m (console (handleSave st)) ->
                  In m (console st) \/ m = Warn rootWarning)
  /\ (forall err,
        editTarget st parsed = Throw err ->
        json (handleSave st) = json st
        /\ file (handleSave st) = file st
        /\ editMode (handleSave st) = editMode st
        /\ console (handleSave st) = (console st ++ [Error saveError err])%list).
Proof.
  intros Hf Hp. split.
  - intros target Ht.
    assert (Ed : editedDocument st = Normal (parsed, [])).
    { unfold editedDocument. rewrite Hp. cbn [bind]. rewrite Ht. cbn [bind].
      now rewrite Hf. }
    rewrite handleSave_outcome, Ed. cbn [saved json file contents editMode console].
    repeat split; try reflexivity.
    intros m. destruct (warned_frame st) as (_ & _ & _ & _ & _ & [Hc|Hc]);
      rewrite Hc; [auto|].
    intros Hin. apply in_app_or in Hin. destruct Hin as [|[<-|[]]]; auto.
  - intros err Ht.
    assert (Ed : editedDocument st = Throw err).
    { unfold editedDocument. rewrite Hp. cbn [bind]. now rewrite Ht. }
    assert (Hw : warned st = st) by (unfold warned; now rewrite Hp, Ht).
    rewrite handleSave_outcome, Ed, Hw. repeat split; reflexivity.
Qed.



(** X18.  Inside the edited object, a save touches only the keys of the form:
    when the walk ended on a plain object, the own properties under any
    other key are, in the saved document, what they were.  When
    [__proto__] is not a key of the form, the object keeps its prototype
    and any other key leads to what it led to before, however deep and
    inherited members included; and when every key of the form was
    already a key of the object, the saved object lists the same keys in
    the same order. *)
Theorem handleSave_leaves_other_keys (st : State) (parsed doc : jsvalue)
    (done : list assignment) (inherits : bool) (props : list (string * option jsvalue)) :
  parsedDocument st = Normal parsed ->
  editTarget st parsed = Normal (Data (Some (VObj inherits props))) ->
  editedDocument st = Normal (doc, done) ->
  NoDup (map fst (formValues st)) ->
  exists inherits' props',
    setValueAtPath (Data (Some doc)) (Some (targetPath (selectedNode st)))
    = Normal (Data (Some (VObj inherits' props')))
    /\ (forall k, ~ In k (map fst (formValues st)) -> lookup k props' = lookup k props)
    /\ (~ In "__proto__" (map fst (formValues st)) ->
        inherits' = inherits
        /\ forall seg rest,
             ~ In (property_key seg) (map fst (formValues st)) ->
             setValueAtPath (Data (Some doc))
               (Some (targetPath (selectedNode st) ++ seg :: rest)%list)
             = setValueAtPath (Data (Some parsed))
                 (Some (targetPath (selectedNode st) ++ seg :: rest)%list))
    /\ ((forall field, In field (formValues st) -> In (fst field) (map fst props)) ->
        inherits' = inherits /\ map fst props' = map fst props).
Proof.
  intros Hp Ht Ed Hnd.
  destruct (editedDocument_through_parent st Hp Ht eq_refl Ed) as (_ & parent' & Hl & Hf).
  destruct (@forEach_object_fields _ (selectedNode st) (formValues st) Hnd inherits props)
    as (inh' & props' & Hf' & _ & Hkeep).
  rewrite Hf' in Hf. injection Hf as <-.
  exists inh', props'. rewrite setValueAtPath_located. split; [exact Hl|].
  split; [exact Hkeep|]. split.
  - intros Hfree.
    assert (Ei : inh' = inherits)
      by exact (forEach_keeps_prototype (selectedNode st) (formValues st) Hfree
                  inherits props Hf').
    split; [exact Ei|]. intros seg rest Hk.
    rewrite !setValueAtPath_located, !located_app, Hl. unfold editTarget in Ht.
    rewrite Ht. cbn [bind]. rewrite !located_cons. f_equal.
    unfold indexed. cbn [is_nullish get_prop own_prop].
    now rewrite (Hkeep _ Hk), Ei.
  - intros Hown.
    destruct (forEach_keeps_keys (selectedNode st) (formValues st) inherits props Hown)
      as (props2 & E2 & Hk2).
    rewrite Hf' in E2. injection E2 as <- <-. auto.
Qed.

Lemma saved_field (st : State) (parsed doc : jsvalue) (done : list assignment)
    (inherits : bool) (props : list (string * option jsvalue)) (field : string * string) :
  parsedDocument st = Normal parsed ->
  editTarget st parsed = Normal (Data (Some (VObj inherits props))) ->
  editedDocument st = Normal (doc, done) ->
  NoDup (map fst (formValues st)) ->
  In field (formValues st) -> fst field <> "__proto__" ->
  exists parent',
    setValueAtPath (Data (Some doc)) (Some (targetPath (selectedNode st)))
    = Normal (Data (Some parent'))
    /\ get_prop (Data (Some parent')) (fst field)
       = Normal (Data (Some (VPrim (fieldValue (selectedNode st) field)))).
Proof.
  intros Hp Ht Ed Hnd Hin Hk.
  destruct (editedDocument_through_parent st Hp Ht eq_refl Ed) as (_ & parent' & Hl & Hf).
  destruct (@forEach_object_fields _ (selectedNode st) (formValues st) Hnd inherits props)
    as (inh' & props' & Hf' & Hset & _).
  rewrite Hf' in Hf. injection Hf as <-.
  exists (VObj inh' props'). rewrite setValueAtPath_located. split; [exact Hl|].
  apply get_own. cbn [own_prop]. exact (Hset field Hin Hk).
Qed.

(** X19.  What is typed is what is saved: after the user typed [input] in the
    input of a row keyed [k], a save that goes through on a plain object
    leaves, at the node's path of the saved document, an object whose
    key [k] holds [input] coerced by the type of the first row with that
    key. *)
Theorem typed_then_saved (st : State) (row : NodeRow) (k input : string)
    (parsed doc : jsvalue) (done : list assignment)
    (inherits : bool) (props : list (string * option jsvalue)) :
  key row = Some k -> k <> "__proto__" ->
  parsedDocument (onChange row input st) = Normal parsed ->
  editTarget (onChange row input st) parsed = Normal (Data (Some (VObj inherits props))) ->
  editedDocument (onChange row input st) = Normal (doc, done) ->
  exists parent',
    setValueAtPath (Data (Some doc)) (Some (targetPath (selectedNode st)))
    = Normal (Data (Some parent'))
    /\ get_prop (Data (Some parent')) k
       = Normal (Data (Some (VPrim (coerceValue input (fieldType (selectedNode st) k))))).
Proof.
  intros Hk Hp Hparsed Ht Ed.
  destruct (onChange_sets_field_lemma row input st Hk) as (Hl & Hord).
  apply (@saved_field (onChange row input st) parsed doc done inherits props (k, input)
           Hparsed Ht Ed (ordered_NoDup Hord)); [|exact Hp].
  now apply lookup_In.
Qed.

Lemma form_entry (n : NodeData) (field : string * string) :
  In field (initialFormValues (Some n)) ->
  fst field <> "__proto__"
  /\ exists r, last_field (text n) (fst field) = Some r
               /\ snd field = fieldText (value r).
Proof.
  intros Hin. destruct field as [k text0]. cbn [fst snd].
  pose proof (ordered_NoDup (initialFormValues_ordered (Some n))) as Hnd.
  pose proof (In_lookup _ _ _ Hnd Hin) as El.
  assert (Hk : k <> "__proto__").
  { intros ->. rewrite initialFormValues_fill, fill_no_proto in El. discriminate. }
  split; [exact Hk|].
  rewrite initialFormValues_fill, (fill_lookup (text n) Hk) in El.
  destruct (last_field (text n) k) as [r|]; [|discriminate].
  exists r. split; [reflexivity|]. now inversion El.
Qed.

(** X20.  Saving without having typed anything leaves the document as it was:
    when the form is as the effect filled it, the walk ends on a plain
    object that holds, under the key of every kept row, the row's value,
    and that value comes back from its form text by coercion, the saved
    document is the parsed document. *)
Theorem untouched_save_keeps_document (st : State) (n : NodeData) (parsed : jsvalue)
    (inherits : bool) (props : list (string * option jsvalue)) :
  selectedNode st = Some n ->
  formValues st = initialFormValues (Some n) ->
  parsedDocument st = Normal parsed ->
  editTarget st parsed = Normal (Data (Some (VObj inherits props))) ->
  (forall k r,
     last_field (text n) k = Some r ->
     exists v,
       value r = Some v
       /\ lookup k props = Some (Some (VPrim v))
       /\ coerceValue (fieldText (Some v)) (fieldType (Some n) k) = v) ->
  editedDocument st = Normal (parsed, [])
  /\ json (handleSave st) = JSON_stringify parsed 2
  /\ editMode (handleSave st) = false.
Proof.
  intros Hn Hform Hp Ht Hrows.
  assert (Ed : editedDocument st = Normal (parsed, [])).
  { rewrite (editedDocument_inside st Hp Ht eq_refl).
    destruct (located_inside _ _ Ht eq_refl) as (parent0 & E0 & Hd). injection E0 as <-.
    rewrite (forEach_through_same (selectedNode st) (formValues st) parsed Hd);
      [reflexivity|].
    intros field Hin. rewrite Hform in Hin.
    destruct (form_entry n field Hin) as (Hk & r & El & Etext).
    destruct (Hrows _ _ El) as (v & Ev & Hv & Hc).
    unfold assignTo. cbn [set_prop]. unfold object_set.
    assert (Ho : has_own (fst field) props = true) by (unfold has_own; now rewrite Hv).
    rewrite Ho, andb_false_r. unfold define_own. rewrite Ho.
    assert (Efv : fieldValue (selectedNode st) field = v).
    { unfold fieldValue. rewrite Hn, Etext, Ev. exact Hc. }
    rewrite Efv. cbn [option_map]. now rewrite (overwrite_same _ _ Hv). }
  split; [exact Ed|]. rewrite handleSave_outcome, Ed. split; reflexivity.
Qed.

(** X21.  A [null] field does not survive a save: when the form is as the
    effect filled it, a key whose last kept row holds [null], and whose
    first row is not of type "number", holds the empty string in the
    object at the node's path of the saved document. *)
Theorem untouched_save_empties_null (st : State) (n : NodeData) (k : string)
    (r : NodeRow) (parsed doc : jsvalue) (done : list assignment)
    (inherits : bool) (props : list (string * option jsvalue)) :
  selectedNode st = Some n ->
  formValues st = initialFormValues (Some n) ->
  k <> "__proto__" ->
  last_field (text n) k = Some r ->
  value r = Some PNull ->
  ~ is_type (fieldType (Some n) k) "number" ->
  parsedDocument st = Normal parsed ->
  editTarget st parsed = Normal (Data (Some (VObj inherits props))) ->
  editedDocument st = Normal (doc, done) ->
  exists parent',
    setValueAtPath (Data (Some doc)) (Some (targetPath (selectedNode st)))
    = Normal (Data (Some parent'))
    /\ get_prop (Data (Some parent')) k = Normal (Data (Some (VPrim (PStr "")))).
Proof.
  intros Hn Hform Hk El Ev Hty Hp Ht Ed.
  assert (Hin : In (k, "") (formValues st)).
  { rewrite Hform. apply lookup_In.
    rewrite initialFormValues_fill, (fill_lookup (text n) Hk), El, Ev. reflexivity. }
  assert (Hnd : NoDup (map fst (formValues st)))
    by (rewrite Hform; apply ordered_NoDup, initialFormValues_ordered).
  destruct (@saved_field st parsed doc done inherits props (k, "") Hp Ht Ed Hnd Hin Hk)
    as (parent' & Hl & Hg).
  exists parent'. split; [exact Hl|]. cbn [fst] in Hg. rewrite Hg. do 4 f_equal.
  unfold fieldValue. cbn [fst snd]. rewrite Hn.
  unfold coerceValue. apply is_type_eqb_false in Hty. rewrite Hty.
  now rewrite !andb_false_r.
Qed.

(** X22.  A save onto the realm: when the walk of the node's path ends on an
    object of the realm that is not a function, no warning is logged and
    the document is not touched.  If the save goes through, the stores
    receive the parsed document as [JSON.stringify] prints it, and the
    fields of the form were assigned, coerced and in order, to that
    object; if it fails, the error is logged and the stores, the
    selected node and the edit mode are as before. *)
Theorem handleSave_onto_realm (st : State) (parsed : jsvalue) (b : builtin) :
  parsedDocument st = Normal parsed ->
  editTarget st parsed = Normal (Builtin b) ->
  callable b = false ->
  (forall doc done,
     editedDocument st = Normal (doc, done) ->
     doc = parsed
     /\ done = assignments (selectedNode st) b (formValues st)
     /\ json (handleSave st) = JSON_stringify parsed 2
     /\ contents (file (handleSave st)) = JSON_stringify parsed 2
     /\ editMode (handleSave st) = false
     /\ console (handleSave st) = console st)
  /\ (forall err,
        editedDocument st = Throw err ->
        json (handleSave st) = json st
        /\ file (handleSave st) = file st
        /\ selectedNode (handleSave st) = selectedNode st
        /\ editMode (handleSave st) = editMode st
        /\ console (handleSave st) = (console st ++ [Error saveError err])%list).
Proof.
  intros Hp Ht Hc.
  assert (Hw : warned st = st).
  { unfold warned. rewrite Hp, Ht. cbn [is_object]. now rewrite Hc. }
  split.
  - intros doc done Ed.
    assert (E : doc = parsed /\ done = assignments (selectedNode st) b (formValues st)).
    { unfold editedDocument in Ed. rewrite Hp in Ed. cbn [bind] in Ed.
      rewrite Ht in Ed. cbn [bind] in Ed.
      exact (forEach_builtin (selectedNode st) b (formValues st) Hc parsed [] Ed). }
    destruct E as [-> ->]. rewrite handleSave_outcome, Ed.
    cbn [saved json file contents editMode console]. rewrite Hw.
    repeat split; reflexivity.
  - intros err Ed. rewrite handleSave_outcome, Ed, Hw. repeat split; reflexivity.
Qed.

End SaveMore.

(** ** The further statements on the sample cases *)

Section MoreOnSamples.
Import Sample Cases MoreCases.

#[local] Existing Instance numbers.
#[local] Existing Instance realm.

Lemma normalizeNodeData_only_fields_witness :
  normalizeNodeData (Some customerRows)
  = normalizeNodeData (Some [row (Some "name") (Some (PStr "Ada")) "string";
                             row (Some "age") (Some (int 36)) "number"]).
Proof.
  apply (normalizeNodeData_only_fields customerRows).
  reflexivity.
Defined.

Lemma normalizeNodeData_last_row_wins_witness :
  exists inherits props,
    normalizeNodeData (Some repeatedRows) = JSON_stringify (VObj inherits props) 2
    /\ lookup "a" props = Some (Some (VPrim (int 2))).
Proof.
  destruct (normalizeNodeData_last_row_wins repeatedRows)
    as (inherits & props & E & _ & _ & Hl); [reflexivity|].
  exists inherits, props. split; [exact E|].
  rewrite (Hl "a"); [reflexivity | discriminate].
Defined.

Lemma jsonPathToString_injective_witness :
  [Key "customer"; Index 0] = [Key "customer"; Index 0].
Proof.
  apply jsonPathToString_injective; reflexivity.
Defined.


Lemma coerceValue_fieldText_witness :
  coerceValue (fieldText (Some (int 36))) (Some "number") = int 36
  /\ coerceValue (fieldText (Some (PStr "Ada"))) (Some "string") = PStr "Ada"
  /\ coerceValue (fieldText (Some PNull)) (Some "null") = PStr "".
Proof.
  destruct (coerceValue_fieldText (NUM := numbers)) as (_ & Hs & Hn & Hnull).
  split; [|split].
  - apply (Hn (Int 36)); reflexivity.
  - apply Hs. discriminate.
  - apply Hnull. unfold is_type. discriminate.
Defined.

Lemma initialFormValues_entries_witness :
  lookup "age" (initialFormValues (Some customerNode)) = Some "36"
  /\ lookup "orders" (initialFormValues (Some customerNode)) = None.
Proof.
  destruct (initialFormValues_entries customerNode)
    as (_ & _ & _ & Hl).
  split; (rewrite Hl; [reflexivity | discriminate]).
Defined.

Lemma editableRows_have_entries_witness :
  lookup "name" (formValues (populateFormValues editingCustomer)) = Some "Ada".
Proof.
  destruct (@editableRows_have_entries _ editingCustomer nameRow "name")
    as (_ & Hown).
  - simpl. auto.
  - reflexivity.
  - discriminate.
  - apply Hown. intros r [<-|[<-|[]]]; [reflexivity | discriminate].
Defined.

Lemma onChange_sets_field_witness :
  lookup "name" (formValues (onChange nameRow "Grace" customerOpened)) = Some "Grace"
  /\ lookup "age" (formValues (onChange nameRow "Grace" customerOpened)) = Some "36"
  /\ map fst (formValues (onChange nameRow "Grace" customerOpened)) = ["name"; "age"].
Proof.
  destruct (@onChange_sets_field _ nameRow "name" "Grace" customerOpened
              eq_refl)
    as (Hset & _ & _ & _ & _ & _ & Hrest).
  destruct Hrest as (Hother & Hkeys).
  - apply initialFormValues_ordered.
  - split; [exact Hset|]. split.
    + rewrite Hother; [reflexivity | discriminate].
    + rewrite Hkeys; [reflexivity | simpl; auto].
Defined.

Lemma form_stays_ordered_witness :
  NoDup (map fst (formValues
    (@run _ _ MoreCases.runtime
       [NodeChanged; EditClicked; Typed nameRow "Grace"; SaveClicked; CancelClicked]
       created))).
Proof.
  apply (@form_stays_ordered _ _ MoreCases.runtime). constructor.
Defined.

Lemma handleSave_empty_form_witness :
  (json (@handleSave _ _ MoreCases.runtime nullOpened) = "null"
   /\ editMode (@handleSave _ _ MoreCases.runtime nullOpened) = false)
  /\ (json (@handleSave _ _ Cases.runtime editingCaller) = customerText
      /\ editMode (@handleSave _ _ Cases.runtime editingCaller) = true
      /\ console (@handleSave _ _ Cases.runtime editingCaller) = [Error saveError TypeError]).
Proof.
  split.
  - destruct (@handleSave_empty_form _ _ MoreCases.runtime nullOpened (VPrim PNull))
      as (Hsaved & _); [reflexivity | reflexivity |].
    destruct (Hsaved (Data (Some (VPrim PNull)))) as (Hj & _ & He & _); [reflexivity|].
    split; [exact Hj | exact He].
  - destruct (@handleSave_empty_form _ _ Cases.runtime editingCaller (reify customerDoc))
      as (_ & Hfailed); [reflexivity | reflexivity |].
    destruct (Hfailed TypeError) as (Hj & _ & He & Hc); [reflexivity|].
    split; [exact Hj|]. split; [exact He | exact Hc].
Defined.


Lemma handleSave_leaves_other_keys_witness :
  exists doc,
    @editedDocument _ _ Cases.runtime editingCustomer = Normal (doc, [])
    /\ setValueAtPath (Data (Some doc)) (Some [Key "customer"; Key "orders"])
       = Normal (Data (Some (VArr [])))
    /\ setValueAtPath (Data (Some doc)) (Some [Key "customer"; Key "toString"; Key "name"])
       = Normal (Data (Some (VPrim (PStr "toString"))))
    /\ exists inherits props,
         setValueAtPath (Data (Some doc)) (Some [Key "customer"])
         = Normal (Data (Some (VObj inherits props)))
         /\ lookup "orders" props = Some (Some (VArr []))
         /\ map fst props = ["name"; "orders"; "age"].
Proof.
  destruct (@editedDocument _ _ Cases.runtime editingCustomer) as [[doc done]|] eqn:Ed;
    [|discriminate].
  assert (Edone : done = []) by (apply (f_equal (fun c => match c with
                                                         | Normal (_, d) => d
                                                         | Throw _ => []
                                                         end)) in Ed; now symmetry).
  subst done.
  destruct (@handleSave_leaves_other_keys _ _ Cases.runtime editingCustomer
              (reify customerDoc) doc [] true
              [("name", Some (VPrim (PStr "Ada"))); ("orders", Some (VArr []));
               ("age", Some (VPrim (int 36)))])
    as (inherits & props & Hl & Hown & Hother & Hkeys).
  - reflexivity.
  - reflexivity.
  - exact Ed.
  - repeat constructor; simpl; intuition discriminate.
  - assert (Hproto : ~ In "__proto__" (map fst (formValues editingCustomer)))
      by (simpl; intuition discriminate).
    destruct (Hother Hproto) as (_ & Hdeep).
    exists doc. split; [reflexivity|]. split; [|split].
    + assert (Hfree : ~ In (property_key (Key "orders"))
                           (map fst (formValues editingCustomer)))
        by (simpl; intuition discriminate).
      exact (eq_trans (Hdeep (Key "orders") [] Hfree) eq_refl).
    + assert (Hfree : ~ In (property_key (Key "toString"))
                           (map fst (formValues editingCustomer)))
        by (simpl; intuition discriminate).
      exact (eq_trans (Hdeep (Key "toString") [Key "name"] Hfree) eq_refl).
    + exists inherits, props. split; [exact Hl|]. split.
      * rewrite (Hown "orders"); [reflexivity | simpl; intuition discriminate].
      * apply Hkeys. intros field [<-|[<-|[]]]; simpl; auto.
Defined.

Lemma typed_then_saved_witness :
  exists doc customer,
    @editedDocument _ _ Cases.runtime (onChange nameRow "Grace" customerOpened)
    = Normal (doc, [])
    /\ setValueAtPath (Data (Some doc)) (Some [Key "customer"]) = Normal (Data (Some customer))
    /\ get_prop (Data (Some customer)) "name" = Normal (Data (Some (VPrim (PStr "Grace")))).
Proof.
  destruct (@editedDocument _ _ Cases.runtime (onChange nameRow "Grace" customerOpened))
    as [[doc done]|] eqn:Ed; [|discriminate].
  assert (Edone : done = []) by (apply (f_equal (fun c => match c with
                                                         | Normal (_, d) => d
                                                         | Throw _ => []
                                                         end)) in Ed; now symmetry).
  subst done.
  destruct (@typed_then_saved _ _ Cases.runtime customerOpened nameRow "name" "Grace"
              (reify customerDoc) doc [] true
              [("name", Some (VPrim (PStr "Ada"))); ("orders", Some (VArr []));
               ("age", Some (VPrim (int 36)))])
    as (customer & Hl & Hg).
  - reflexivity.
  - discriminate.
  - reflexivity.
  - reflexivity.
  - exact Ed.
  - exists doc, customer. split; [reflexivity|]. split; [exact Hl | exact Hg].
Defined.

Lemma untouched_save_keeps_document_witness :
  json (@handleSave _ _ Cases.runtime customerOpened) = customerText.
Proof.
  destruct (@untouched_save_keeps_document _ _ Cases.runtime customerOpened customerNode
              (reify customerDoc) true
              [("name", Some (VPrim (PStr "Ada"))); ("orders", Some (VArr []));
               ("age", Some (VPrim (int 36)))])
    as (_ & Hj & _).
  - reflexivity.
  - reflexivity.
  - reflexivity.
  - reflexivity.
  - intros k r. unfold last_field.
    change (rev (filter is_field (text customerNode)))
      with [row (Some "age") (Some (int 36)) "number"; nameRow].
    cbn [find]. unfold keyed, nameRow, row. cbn [key].
    destruct (String.eqb_spec "age" k) as [<-|_].
    + intros E. inversion E; subst. exists (int 36). repeat split; reflexivity.
    + destruct (String.eqb_spec "name" k) as [<-|_]; [|intros E; discriminate E].
      intros E. inversion E; subst. exists (PStr "Ada"). repeat split; reflexivity.
  - exact Hj.
Defined.

Lemma untouched_save_empties_null_witness :
  exists doc root,
    @editedDocument _ _ MoreCases.runtime noteOpened = Normal (doc, [])
    /\ setValueAtPath (Data (Some doc)) (Some []) = Normal (Data (Some root))
    /\ get_prop (Data (Some root)) "note" = Normal (Data (Some (VPrim (PStr "")))).
Proof.
  destruct (@editedDocument _ _ MoreCases.runtime noteOpened) as [[doc done]|] eqn:Ed;
    [|discriminate].
  assert (Edone : done = []) by (apply (f_equal (fun c => match c with
                                                         | Normal (_, d) => d
                                                         | Throw _ => []
                                                         end)) in Ed; now symmetry).
  subst done.
  destruct (@untouched_save_empties_null _ _ MoreCases.runtime noteOpened noteNode "note"
              (row (Some "note") (Some PNull) "null") (reify noteDoc) doc [] true
              [("note", Some (VPrim PNull))])
    as (root & Hl & Hg).
  - reflexivity.
  - reflexivity.
  - discriminate.
  - reflexivity.
  - reflexivity.
  - unfold is_type. discriminate.
  - reflexivity.
  - reflexivity.
  - exact Ed.
  - exists doc, root. split; [reflexivity|]. split; [exact Hl | exact Hg].
Defined.

Lemma handleSave_onto_realm_witness :
  json (@handleSave _ _ Cases.runtime editingStale) = customerText
  /\ editMode (@handleSave _ _ Cases.runtime editingStale) = false
  /\ console (@handleSave _ _ Cases.runtime editingStale) = []
  /\ exists done,
       @editedDocument _ _ Cases.runtime editingStale = Normal (reify customerDoc, done)
       /\ done = [(ObjectPrototype, "name", PStr "Grace"); (ObjectPrototype, "age", int 37)].
Proof.
  destruct (@handleSave_onto_realm _ _ Cases.runtime editingStale (reify customerDoc)
              ObjectPrototype)
    as (Hsaved & _); [reflexivity | reflexivity | reflexivity |].
  destruct (Hsaved (reify customerDoc)
              [(ObjectPrototype, "name", PStr "Grace"); (ObjectPrototype, "age", int 37)])
    as (_ & Hd & Hj & _ & He & Hc); [reflexivity|].
  split; [exact Hj|]. split; [exact He|]. split; [exact Hc|].
  eexists. split; [reflexivity | reflexivity].
Defined.

End MoreOnSamples.
